(** * Backtest engine: a shallow embedding of
      [src/services/trading-engine/backtest/backtest.py]

    The script replays a frame of price ticks, trades a mean-reversion
    rule on the 14-period RSI and prints a report.

    Numbers.  Prices, indicator values, pnl and the balance are Python /
    numpy floats, that is IEEE-754 binary64; they are embedded as Rocq's
    primitive [float], whose operations are the same binary64
    operations (round to nearest even) and whose [nan] compares false
    with everything, as in Python.  The two trade counters of the report
    are Python ints and are embedded as [nat]; the win rate
    [wins / total_trades * 100] is the binary64 number Python computes:
    the true division of the two ints, rounded to nearest even, times
    the float 100, rounded again.  The int constants of the source
    (10000, 10, 30, 70, 0, 100) only ever meet floats, where Python
    converts them exactly; they are written as floats.

    State.  A method of [BacktestEngine] is a function from the object
    ([self]) to an outcome that carries the object back, either normally
    or together with the exception that left the method. *)

From Stdlib Require Import Floats String ZArith Bool Arith Lia List.
Import ListNotations.
Local Open Scope float_scope.

(** ** Simulator configuration (module-level constants) *)

Definition INITIAL_BALANCE : float := 10000.
Definition STAKE_AMOUNT : float := 10.

(** ** Data *)

(** One line of the CSV once loaded: the index ([time], kept as the text
    [str(index)] renders) and the [price] column.  Further columns
    ([bid], [ask]) are never read. *)
Record tick := mkTick { tick_time : string; tick_price : float }.

(** One line of the frame after [add_indicators]: what
    [self.df.iterrows()] yields as [(index, row)]. *)
Record row := mkRow {
  time : string;
  price : float;
  sma_14 : float;
  rsi_14 : float
}.

(** [self.df]: [None], the frame as loaded, or the frame with the two
    indicator columns.  A loaded frame has the index and the float
    column [price] only: a file that already brings columns named
    [sma_14] or [rsi_14], or whose prices parse as ints, is outside the
    model. *)
Inductive frame :=
| NoFrame
| Ticks (l : list tick)
| Indicators (l : list row).

(** The dicts appended to [self.trades]:
    [{'type': 'BUY', 'price', 'time'}] and
    [{'type': 'SELL', 'price', 'time', 'pnl', 'balance'}]. *)
Inductive trade :=
| BUY (price : float) (time : string)
| SELL (price : float) (time : string) (pnl : float) (balance : float).

(** The object built by [__init__] ([self.positions] is never read nor
    written afterwards). *)
Record BacktestEngine := mkEngine {
  data_path : string;
  balance : float;
  positions : list trade;
  trades : list trade;
  df : frame
}.

Definition __init__ (data_path : string) : BacktestEngine :=
  {| data_path := data_path;
     balance := INITIAL_BALANCE;
     positions := [];
     trades := [];
     df := NoFrame |}.

Definition set_df (self : BacktestEngine) (f : frame) : BacktestEngine :=
  {| data_path := data_path self; balance := balance self;
     positions := positions self; trades := trades self; df := f |}.

Definition set_balance (self : BacktestEngine) (b : float) : BacktestEngine :=
  {| data_path := data_path self; balance := b;
     positions := positions self; trades := trades self; df := df self |}.

(** [self.trades.append(t)] *)
Definition append_trade (self : BacktestEngine) (t : trade) : BacktestEngine :=
  {| data_path := data_path self; balance := balance self;
     positions := positions self; trades := trades self ++ [t]; df := df self |}.

(** ** Exceptions and methods *)

Inductive py_exception :=
| SystemExit (code : Z)          (* raised by [sys.exit(code)] *)
| PyError (name : string).       (* any other exception, by class name *)

Inductive result (A : Type) :=
| Ok (a : A) (self : BacktestEngine)
| Err (x : py_exception) (self : BacktestEngine).
Arguments Ok {A} a self.
Arguments Err {A} x self.

Definition method (A : Type) := BacktestEngine -> result A.

Definition bind {A B : Type} (m : method A) (k : A -> method B) : method B :=
  fun self =>
    match m self with
    | Ok a self' => k a self'
    | Err x self' => Err x self'
    end.

Notation "m1 ;; m2" := (bind m1 (fun _ => m2))
  (at level 61, right associativity).

(** ** The indicator library *)

(** Modelled from the spec: [max(a, b)] of section 4.1, step 2, for the
    indicator library that is not part of the repository. *)
Definition fmax (a b : float) : float := if a <? b then b else a.

(** Modelled from the spec: the sum behind the means of section 4.1,
    taken from the left. *)
Definition fsum (l : list float) : float := fold_left PrimFloat.add l 0.

(** Modelled from the spec: the period of section 4.1 as a float (exact
    for every period below 2^53). *)
Fixpoint float_of_nat (n : nat) : float :=
  match n with
  | O => 0
  | S m => float_of_nat m + 1
  end.

(** Modelled from the spec: [talib.SMA] belongs to the TA-Lib package,
    which is not part of the repository.  Section 4.1, computeSMA: entry
    [i] is undefined for [i < period - 1] and otherwise the arithmetic
    mean of [prices[i-period+1 .. i]]. *)
Definition talib_SMA (prices : list float) (timeperiod : nat) : list float :=
  map (fun i =>
         if (S i <? timeperiod)%nat then nan
         else fsum (firstn timeperiod (skipn (S i - timeperiod) prices))
              / float_of_nat timeperiod)
      (seq 0 (length prices)).

(** Modelled from the spec: section 4.1, computeRSI, step 1; the price
    changes [prices[i] - prices[i-1]], [i >= 1]. *)
Fixpoint deltas (prev : float) (ps : list float) : list float :=
  match ps with
  | [] => []
  | p :: ps' => (p - prev) :: deltas p ps'
  end.

(** Modelled from the spec: section 4.1, computeRSI, step 2. *)
Definition gain (d : float) : float := fmax d 0.

(** Modelled from the spec: section 4.1, computeRSI, step 2. *)
Definition loss (d : float) : float := fmax (- d) 0.

(** Modelled from the spec: section 4.1, computeRSI, steps 5 and 6. *)
Definition rsi_of (avgGain avgLoss : float) : float :=
  if (avgLoss =? 0) && (0 <? avgGain) then 100
  else if (avgLoss =? 0) && (avgGain =? 0) then 50
  else 100 - 100 / (1 + avgGain / avgLoss).

(** Modelled from the spec: section 4.1, computeRSI, step 4; Wilder
    smoothing after the seed. *)
Fixpoint wilder (n avgGain avgLoss : float) (ds : list float) : list float :=
  match ds with
  | [] => []
  | d :: ds' =>
      let g := (avgGain * (n - 1) + gain d) / n in
      let l := (avgLoss * (n - 1) + loss d) / n in
      rsi_of g l :: wilder n g l ds'
  end.

(** Modelled from the spec: [talib.RSI] belongs to the TA-Lib package,
    which is not part of the repository.  Section 4.1, computeRSI: the
    output is aligned with the input, undefined (NaN) at every index
    below [period]; the averages are seeded at index [period] with the
    simple mean of the first [period] gains and losses and smoothed
    afterwards; a zero average loss gives 100 when the average gain is
    positive and 50 when it is zero too. *)
Definition talib_RSI (prices : list float) (timeperiod : nat) : list float :=
  match prices with
  | [] => []
  | p0 :: ps =>
      let ds := deltas p0 ps in
      if (length ds <? timeperiod)%nat then repeat nan (length prices)
      else
        let n := float_of_nat timeperiod in
        let g := fsum (map gain (firstn timeperiod ds)) / n in
        let l := fsum (map loss (firstn timeperiod ds)) / n in
        repeat nan timeperiod ++ rsi_of g l :: wilder n g l (skipn timeperiod ds)
  end.

(** ** [add_indicators] *)

(** The index and the price column of a frame; the indicator columns, when
    already there, are overwritten by the assignment. *)
Definition frame_ticks (f : frame) : option (list tick) :=
  match f with
  | NoFrame => None
  | Ticks l => Some l
  | Indicators l => Some (map (fun r => mkTick (time r) (price r)) l)
  end.

(** The frame with the columns [sma_14] and [rsi_14] attached. *)
Fixpoint attach (ts : list tick) (sma rsi : list float) : list row :=
  match ts, sma, rsi with
  | t :: ts', s :: sma', r :: rsi' =>
      mkRow (tick_time t) (tick_price t) s r :: attach ts' sma' rsi'
  | _, _, _ => []
  end.

Definition add_indicators : method unit :=
  fun self =>
    match frame_ticks (df self) with
    | None => Ok tt self                                   (* if self.df is None: return *)
    | Some ts =>
        let prices := map tick_price ts in
        Ok tt (set_df self
                 (Indicators (attach ts (talib_SMA prices 14) (talib_RSI prices 14))))
    end.

(** ** [run_simulation] *)

(** The local variables of the loop. *)
Record locals := mkLocals {
  in_position : bool;
  entry_price : float;
  entry_time : option string
}.

(** One iteration of [for index, row in self.df.iterrows()].
    [rsi > 70] is written [70 <? rsi]. *)
Definition step (st : locals * BacktestEngine) (r : row) : locals * BacktestEngine :=
  let (loc, self) := st in
  let rsi := rsi_14 r in
  if negb (in_position loc) && (rsi <? 30) then
    (* BUY *)
    (mkLocals true (price r) (Some (time r)),
     append_trade self (BUY (price r) (time r)))
  else if in_position loc && (70 <? rsi) then
    (* SELL (Close) *)
    let pnl := price r - entry_price loc in
    let self' := set_balance self (balance self + pnl * STAKE_AMOUNT) in
    (mkLocals false (entry_price loc) (entry_time loc),
     append_trade self' (SELL (price r) (time r) (pnl * STAKE_AMOUNT) (balance self')))
  else st.

Definition loop_start : locals := mkLocals false 0 None.

Definition run_loop (rows : list row) (self : BacktestEngine) : locals * BacktestEngine :=
  fold_left step rows (loop_start, self).

Definition run_simulation : method unit :=
  fun self =>
    match df self with
    | NoFrame => Err (PyError "AttributeError") self      (* None has no iterrows *)
    | Ticks [] => Ok tt self
    | Ticks (_ :: _) => Err (PyError "KeyError") self      (* row['rsi_14'] *)
    | Indicators rows => Ok tt (snd (run_loop rows self))
    end.

(** ** [generate_report] *)

Definition is_sell (t : trade) : bool :=
  match t with SELL _ _ _ _ => true | BUY _ _ => false end.

Definition is_buy (t : trade) : bool :=
  match t with BUY _ _ => true | SELL _ _ _ _ => false end.

(** [t.get('pnl', 0)] *)
Definition get_pnl (t : trade) : float :=
  match t with SELL _ _ pnl _ => pnl | BUY _ _ => 0 end.

Record report := mkReport {
  initial_balance : float;
  final_balance : float;
  total_trades : nat;
  win_rate : float;
  report_trades : list trade
}.

(** [float(n)] for a Python int [n >= 0]: the binary64 number nearest to
    [n] (ties to even), [n] itself when [n < 2 ** 53].  Python's true
    division [a / b] of two ints below [2 ** 53] is the binary64 division
    [float(a) / float(b)]; [len] of a list never reaches [2 ** 53]. *)
Definition float_of_int (n : nat) : float :=
  SF2Prim (binary_normalize prec emax (Z.of_nat n) 0 false).

(** The dict handed to [json.dumps]; the method prints it. *)
Definition generate_report : method report :=
  fun self =>
    let total_trades := length (filter is_sell (trades self)) in
    let wins := length (filter (fun t => 0 <? get_pnl t) (trades self)) in
    Ok {| initial_balance := INITIAL_BALANCE;
          final_balance := balance self;
          total_trades := total_trades;
          win_rate := if (0 <? total_trades)%nat
                      then float_of_int wins / float_of_int total_trades * 100
                      else 0;
          report_trades := trades self |}
       self.

(** ** [load_data] and the script *)

Section Script.

(** The pandas calls of [load_data], which read the file system:
    [pd.read_csv(path)] and the conversion of the [time] column followed
    by [set_index]; each returns a frame or raises. *)
Variable pd_read_csv : string -> py_exception + list tick.
Variable pd_to_datetime : list tick -> py_exception + list tick.

(** Any [Exception] of the [try] block is printed and turned into
    [sys.exit(1)]. *)
Definition load_data : method unit :=
  fun self =>
    match pd_read_csv (data_path self) with
    | inl _ => Err (SystemExit 1) self
    | inr raw =>
        let self1 := set_df self (Ticks raw) in
        match pd_to_datetime raw with
        | inl _ => Err (SystemExit 1) self1
        | inr parsed => Ok tt (set_df self1 (Ticks parsed))
        end
    end.

(** The body of the script once the engine is built, for a run that
    names its data file; the branch of a run without argument, which
    first writes a file of its own, is not modelled. *)
Definition script (path : string) : result report :=
  (load_data ;; add_indicators ;; run_simulation ;; generate_report)
    (__init__ path).

End Script.

(** The engine as [run_simulation] meets it in the script: built by
    [__init__], with a frame that carries the indicator columns. *)
Definition loaded (path : string) (rows : list row) : BacktestEngine :=
  set_df (__init__ path) (Indicators rows).

(** The script after a successful [load_data] that delivered [ticks]. *)
Definition replay (path : string) (ticks : list tick) : result report :=
  (add_indicators ;; run_simulation ;; generate_report)
    (set_df (__init__ path) (Ticks ticks)).

(** [load_data] cannot deliver a frame for [path]. *)
Definition load_fails (pd_read_csv : string -> py_exception + list tick)
    (pd_to_datetime : list tick -> py_exception + list tick) (path : string) : bool :=
  match pd_read_csv path with
  | inl _ => true
  | inr raw => match pd_to_datetime raw with inl _ => true | inr _ => false end
  end.

(** [run_simulation] followed by [generate_report] on such an engine. *)
Definition backtest (path : string) (rows : list row) : result report :=
  (run_simulation ;; generate_report) (loaded path rows).

(** A call returns normally with a value and an object that satisfy [P]. *)
Definition returns {A : Type} (r : result A) (P : A -> BacktestEngine -> Prop) : Prop :=
  exists a self, r = Ok a self /\ P a self.

(** ** Vocabulary of the statements *)

(** The pnl fields of the Sell events, in journal order. *)
Definition sell_pnls (l : list trade) : list float :=
  map get_pnl (filter is_sell l).

(** [b + p1 + p2 + ...], added from the left as Python evaluates it:
    binary64 addition is not associative, so the order is part of the sum. *)
Definition add_all (b : float) (ps : list float) : float :=
  fold_left PrimFloat.add ps b.

(** The [balance] field of the last Sell event of [l], or [b] when [l] has
    no Sell event. *)
Definition last_sell_balance (b : float) (l : list trade) : float :=
  fold_left (fun acc t => match t with SELL _ _ _ bal => bal | BUY _ _ => acc end) l b.

(** Every Sell event records the balance before it plus its own pnl. *)
Fixpoint ledger (b : float) (l : list trade) : Prop :=
  match l with
  | [] => True
  | BUY _ _ :: l' => ledger b l'
  | SELL _ _ pnl bal :: l' => bal = b + pnl /\ ledger bal l'
  end.

(** Event [i] of the journal is a Buy exactly when [i] is even. *)
Definition alternating (l : list trade) : Prop :=
  forall i t, nth_error l i = Some t -> is_buy t = Nat.even i.

(** No two neighbours of the journal have the same type. *)
Definition no_repeat (l : list trade) : Prop :=
  forall i a b, nth_error l i = Some a -> nth_error l (S i) = Some b ->
                is_buy a = negb (is_buy b).

(** Executable counterpart of [no_repeat]. *)
Fixpoint no_repeatb (l : list trade) : bool :=
  match l with
  | a :: (b :: _) as l' => negb (Bool.eqb (is_buy a) (is_buy b)) && no_repeatb l'
  | _ => true
  end.

(** The journal ends with a Buy (false for the empty journal). *)
Definition open_position (l : list trade) : bool :=
  fold_left (fun _ t => is_buy t) l false.

Definition count_buys (l : list trade) : nat := length (filter is_buy l).
Definition count_sells (l : list trade) : nat := length (filter is_sell l).

(** The Sell events of a journal, and those among them closed with a
    profit, read off the events themselves. *)
Fixpoint closed_trades (l : list trade) : nat :=
  match l with
  | [] => 0
  | BUY _ _ :: l' => closed_trades l'
  | SELL _ _ _ _ :: l' => S (closed_trades l')
  end.

Fixpoint profitable_trades (l : list trade) : nat :=
  match l with
  | [] => 0
  | BUY _ _ :: l' => profitable_trades l'
  | SELL _ _ pnl _ :: l' =>
      if 0 <? pnl then S (profitable_trades l') else profitable_trades l'
  end.

(** An RSI value on which neither rule of the loop fires. *)
Definition quiet (rsi : float) : Prop :=
  (rsi <? 30) = false /\ (70 <? rsi) = false.

(** The state of the loop after the first [k] rows. *)
Definition state_after (k : nat) (rows : list row) (self : BacktestEngine)
  : locals * BacktestEngine :=
  run_loop (firstn k rows) self.

(** ** What the loop preserves *)

(** The three things an iteration can do. *)
Inductive step_kind (loc : locals) (self : BacktestEngine) (r : row)
  : locals * BacktestEngine -> Prop :=
| step_buy :
    in_position loc = false -> (rsi_14 r <? 30) = true ->
    step_kind loc self r
      (mkLocals true (price r) (Some (time r)),
       append_trade self (BUY (price r) (time r)))
| step_sell :
    in_position loc = true -> (70 <? rsi_14 r) = true ->
    step_kind loc self r
      (mkLocals false (entry_price loc) (entry_time loc),
       append_trade
         (set_balance self (balance self + (price r - entry_price loc) * STAKE_AMOUNT))
         (SELL (price r) (time r) ((price r - entry_price loc) * STAKE_AMOUNT)
               (balance self + (price r - entry_price loc) * STAKE_AMOUNT)))
| step_idle :
    step_kind loc self r (loc, self).

(** What the loop keeps true of the balance and the journal, from an
    opening balance [b0]. *)
Definition books (b0 : float) (st : locals * BacktestEngine) : Prop :=
  ledger b0 (trades (snd st))
  /\ balance (snd st) = last_sell_balance b0 (trades (snd st)).

(** What the loop keeps true of the journal and of [in_position]. *)
Definition journal_ok (st : locals * BacktestEngine) : Prop :=
  alternating (trades (snd st))
  /\ in_position (fst st) = Nat.odd (length (trades (snd st)))
  /\ in_position (fst st) = open_position (trades (snd st))
  /\ count_buys (trades (snd st))
     = (count_sells (trades (snd st)) + if in_position (fst st) then 1 else 0)%nat.

(** ** Sample inputs *)

(** The RSI dips below 30 once, rises above 70 once and settles at 50. *)
Definition round_trip_rows : list row :=
  [ mkRow "09:00" 100 nan nan;
    mkRow "09:01" 101 nan 20;
    mkRow "09:02" 102 nan 25;
    mkRow "09:03" 105.5 nan 80;
    mkRow "09:04" 104 nan 50 ].

(** A second entry that is never closed. *)
Definition open_rows : list row :=
  round_trip_rows ++ [ mkRow "09:05" 99 nan 10; mkRow "09:06" 98 nan 40 ].

(** Two round trips whose gains are far below the balance. *)
Definition small_gain_rows : list row :=
  [ mkRow "09:00" 1 nan 20;
    mkRow "09:01" 0x1.00000000001p+0 nan 80;
    mkRow "09:02" 1 nan 20;
    mkRow "09:03" 0x1.00000000001p+0 nan 80 ].

Definition flat_ticks : list tick :=
  map (fun i => mkTick (String (Ascii.ascii_of_nat (65 + i)) EmptyString) 100) (seq 0 16).

Definition short_ticks : list tick :=
  [ mkTick "09:00" 100; mkTick "09:01" 90; mkTick "09:02" 80 ].

(** A file system without the file, and one that holds [short_ticks]. *)
Definition no_such_file : string -> py_exception + list tick :=
  fun _ => inl (PyError "FileNotFoundError").

Definition short_file : string -> py_exception + list tick :=
  fun _ => inr short_ticks.

Definition parsed : list tick -> py_exception + list tick :=
  fun raw => inr raw.

Definition bad_dates : list tick -> py_exception + list tick :=
  fun _ => inl (PyError "ValueError").

(** ** Vocabulary of the further properties *)

(** The object a call leaves behind, whether it returned or raised. *)
Definition after {A : Type} (r : result A) : BacktestEngine :=
  match r with
  | Ok _ self => self
  | Err _ self => self
  end.

(** [s] is [l] with some elements left out, the order kept. *)
Inductive subseq {A : Type} : list A -> list A -> Prop :=
| subseq_nil : subseq [] []
| subseq_skip x s l : subseq s l -> subseq s (x :: l)
| subseq_take x s l : subseq s l -> subseq (x :: s) (x :: l).

(** The journal event [t] was written at row [r]: it carries the price
    and the time of [r], and the RSI of [r] gave the signal of its type. *)
Definition taken_at (t : trade) (r : row) : Prop :=
  match t with
  | BUY p tm => p = price r /\ tm = time r /\ (rsi_14 r <? 30) = true
  | SELL p tm _ _ => p = price r /\ tm = time r /\ (70 <? rsi_14 r) = true
  end.

(** Rows whose RSI is below 30, and rows whose RSI is above 70. *)
Definition buy_signals (rows : list row) : nat :=
  length (filter (fun r => rsi_14 r <? 30) rows).

Definition sell_signals (rows : list row) : nat :=
  length (filter (fun r => 70 <? rsi_14 r) rows).

(** Every Sell event comes right after a Buy event, and its pnl is the
    price move since that Buy times the stake. *)
Definition sells_priced (l : list trade) : Prop :=
  forall pre p2 t2 pnl bal post,
    l = pre ++ SELL p2 t2 pnl bal :: post ->
    exists pre' p1 t1,
      pre = pre' ++ [BUY p1 t1] /\ pnl = (p2 - p1) * STAKE_AMOUNT.

(** What the loop keeps true of [entry_price]. *)
Definition entry_ok (st : locals * BacktestEngine) : Prop :=
  sells_priced (trades (snd st))
  /\ (in_position (fst st) = true ->
      exists pre t, trades (snd st) = pre ++ [BUY (entry_price (fst st)) t]).

(** What the loop keeps true on a frame whose price is always [p]. *)
Definition flat_books (p : float) (st : locals * BacktestEngine) : Prop :=
  balance (snd st) = INITIAL_BALANCE
  /\ (in_position (fst st) = true -> entry_price (fst st) = p)
  /\ Forall (fun t => get_pnl t = 0) (trades (snd st)).

(** Two rows that differ at most in their [sma_14]. *)
Definition same_inputs (r1 r2 : row) : Prop :=
  time r1 = time r2 /\ price r1 = price r2 /\ rsi_14 r1 = rsi_14 r2.

(** Two loop states that agree on the object and on the position, and on
    the entry price while a position is open. *)
Definition same_position (st1 st2 : locals * BacktestEngine) : Prop :=
  snd st1 = snd st2
  /\ in_position (fst st1) = in_position (fst st2)
  /\ (in_position (fst st1) = true -> entry_price (fst st1) = entry_price (fst st2)).

(** Further sample inputs. *)
Definition flat_price_rows : list row :=
  [ mkRow "09:00" 100 nan 20; mkRow "09:01" 100 nan 80;
    mkRow "09:02" 100 nan 10; mkRow "09:03" 100 nan 90 ].

Definition round_trip_rows_other_sma : list row :=
  map (fun r => mkRow (time r) (price r) 0 (rsi_14 r)) round_trip_rows.

Definition second_chunk : list row :=
  [ mkRow "09:05" 99 nan 10; mkRow "09:06" 103 nan 75 ].

(** A journal of three round trips, one of them closed with a profit. *)
Definition three_trip_rows : list row :=
  [ mkRow "09:00" 100 nan 20; mkRow "09:01" 104.5 nan 80;
    mkRow "09:02" 104 nan 20; mkRow "09:03" 103 nan 80;
    mkRow "09:04" 100 nan 20; mkRow "09:05" 100 nan 80 ].

(** ** Vocabulary of binary64 rounding

    The win rate is the one place where the script divides; what follows
    names the steps of [SpecFloat]'s rounding, the specification of the
    primitive operations. *)

(** A shift record has dropped a nonzero bit. *)
Definition shr_inexact (mrs : shr_record) : bool := shr_r mrs || shr_s mrs.

(** [b] is [a] shifted right by [j] bits: the mantissa is the quotient,
    and [b] reports a dropped bit only if [a] did or the remainder is not
    zero. *)
Definition shifted (j : Z) (a b : shr_record) : Prop :=
  (shr_m b = shr_m a / 2 ^ j
   /\ (shr_inexact b = true -> shr_inexact a = true \/ shr_m a mod 2 ^ j <> 0))%Z.

(** The round bit of [b], [a] shifted right by [j] bits, is set only if
    the bits dropped make up half a unit or more. *)
Definition round_bit (j : Z) (a b : shr_record) : Prop :=
  (shr_r b = true -> 2 ^ (j - 1) <= shr_m a mod 2 ^ j)%Z.

(** The mantissa and the exponent [binary_round_aux] ends with: a shift
    to 53 digits, the rounding to nearest even, and a second shift in
    case the rounding carried into a 54th digit. *)
Definition round_pair (mx ex : Z) (lx : location) : Z * Z :=
  let '(mrs', e') := shr_fexp prec emax mx ex lx in
  let '(mrs'', e'') :=
    shr_fexp prec emax
      (round_nearest_even (shr_m mrs') (loc_of_shr_record mrs')) e' loc_Exact in
  (shr_m mrs'', e'').

(** The number of bits [shr_fexp] drops from [m * 2 ^ e]. *)
Definition shift_of (m e : Z) : Z :=
  Z.max (fexp prec emax (Zdigits2 m + e) - e) 0.

(** [f] is the positive normal number [m * 2 ^ e], [m] of 53 bits. *)
Definition is_normal (f : spec_float) (m e : Z) : Prop :=
  (f = S754_finite false (Z.to_pos m) e
   /\ 2 ^ 52 <= m < 2 ^ 53
   /\ -1074 <= e <= 971)%Z.

(** * Facts about binary64 *)

Lemma SFeqb_refl (s : spec_float) : s <> S754_nan -> SFeqb s s = true.
Proof.
  unfold SFeqb; destruct s as [b | b | | b m e]; simpl; intros H.
  - reflexivity.
  - destruct b; reflexivity.
  - congruence.
  - rewrite Z.compare_refl, Pos.compare_cont_refl. destruct b; reflexivity.
Qed.

Lemma is_nan_Prim2SF (x : float) : is_nan x = true -> Prim2SF x = S754_nan.
Proof.
  unfold is_nan. rewrite FloatAxioms.eqb_spec. intros H.
  destruct (Prim2SF x) eqn:E; try reflexivity;
    rewrite SFeqb_refl in H by discriminate; discriminate.
Qed.

(** A NaN is below nothing... *)
Lemma nan_ltb_l (x y : float) : is_nan x = true -> (x <? y) = false.
Proof.
  intros H. rewrite ltb_spec, (is_nan_Prim2SF x H). reflexivity.
Qed.

(** ... and nothing is below a NaN. *)
Lemma nan_ltb_r (x y : float) : is_nan x = true -> (y <? x) = false.
Proof.
  intros H. rewrite ltb_spec, (is_nan_Prim2SF x H).
  unfold SFltb, SFcompare. destruct (Prim2SF y); reflexivity.
Qed.

(** A finite float minus itself is [+0]. *)
Lemma sub_diag_finite (p : float) : is_finite p = true -> p - p = 0.
Proof.
  intros H. apply Prim2SF_inj. rewrite sub_spec.
  unfold is_finite in H. apply negb_true_iff, orb_false_iff in H.
  destruct H as [Hn Hi]. unfold is_nan in Hn. unfold is_infinity in Hi.
  rewrite FloatAxioms.eqb_spec in Hn, Hi. rewrite abs_spec in Hi.
  set (s := Prim2SF p) in *. clearbody s.
  destruct s as [b | b | | b m e].
  - destruct b; reflexivity.
  - destruct b; simpl in Hi; discriminate.
  - simpl in Hn. discriminate.
  - unfold SF64sub, SFsub. rewrite Z.sub_diag. reflexivity.
Qed.

(** * The loop *)

Lemma step_spec loc self r : step_kind loc self r (step (loc, self) r).
Proof.
  unfold step.
  destruct (in_position loc) eqn:Hp; simpl.
  - destruct (70 <? rsi_14 r) eqn:Hr.
    + now apply step_sell.
    + apply step_idle.
  - destruct (rsi_14 r <? 30) eqn:Hr.
    + now apply step_buy.
    + apply step_idle.
Qed.

Lemma run_loop_app rows1 rows2 self :
  run_loop (rows1 ++ rows2) self = fold_left step rows2 (run_loop rows1 self).
Proof. unfold run_loop. apply fold_left_app. Qed.

Lemma run_loop_snoc rows r self :
  run_loop (rows ++ [r]) self = step (run_loop rows self) r.
Proof. rewrite run_loop_app. reflexivity. Qed.

(** A property of the loop state that every iteration keeps holds at the
    end of the loop. *)
Lemma run_loop_invariant (P : locals * BacktestEngine -> Prop) :
  (forall loc self r, P (loc, self) -> P (step (loc, self) r)) ->
  forall rows st, P st -> P (fold_left step rows st).
Proof.
  intros Hstep rows. induction rows as [| r rows IH]; intros st Hst; simpl.
  - exact Hst.
  - apply IH. destruct st as [loc self]. now apply Hstep.
Qed.

Lemma run_simulation_loaded path rows :
  run_simulation (loaded path rows)
  = Ok tt (snd (run_loop rows (loaded path rows))).
Proof. reflexivity. Qed.

Lemma backtest_eq path rows :
  backtest path rows
  = generate_report (snd (run_loop rows (loaded path rows))).
Proof. reflexivity. Qed.

(** * The ledger: balances recorded in the journal *)

Lemma last_sell_balance_app b l1 l2 :
  last_sell_balance b (l1 ++ l2) = last_sell_balance (last_sell_balance b l1) l2.
Proof. unfold last_sell_balance. apply fold_left_app. Qed.

Lemma sell_pnls_app l1 l2 : sell_pnls (l1 ++ l2) = sell_pnls l1 ++ sell_pnls l2.
Proof. unfold sell_pnls. now rewrite filter_app, map_app. Qed.

Lemma add_all_app b ps qs : add_all b (ps ++ qs) = add_all (add_all b ps) qs.
Proof. unfold add_all. apply fold_left_app. Qed.

Lemma ledger_app l1 : forall b l2,
  ledger b (l1 ++ l2) <-> ledger b l1 /\ ledger (last_sell_balance b l1) l2.
Proof.
  induction l1 as [| t l1 IH]; intros b l2; simpl.
  - tauto.
  - destruct t as [p tm | p tm pnl bal]; simpl.
    + apply IH.
    + rewrite IH. tauto.
Qed.

(** In a consistent ledger the last recorded balance is the opening
    balance plus the pnl of every Sell event, added in journal order. *)
Lemma ledger_sum l : forall b,
  ledger b l -> last_sell_balance b l = add_all b (sell_pnls l).
Proof.
  induction l as [| t l IH]; intros b H; simpl in *.
  - reflexivity.
  - destruct t as [p tm | p tm pnl bal]; simpl in *.
    + now apply IH.
    + destruct H as [-> H]. now apply IH.
Qed.

Lemma last_sell_balance_no_sell l : forall b,
  filter is_sell l = [] -> last_sell_balance b l = b.
Proof.
  induction l as [| t l IH]; intros b H; simpl in *.
  - reflexivity.
  - destruct t; simpl in *.
    + now apply IH.
    + discriminate.
Qed.

Lemma step_books b0 loc self r :
  books b0 (loc, self) -> books b0 (step (loc, self) r).
Proof.
  unfold books. intros [Hl Hb].
  destruct (step_spec loc self r) as [Hp Hr | Hp Hr |]; simpl in *.
  - rewrite ledger_app, last_sell_balance_app. simpl. tauto.
  - rewrite ledger_app, last_sell_balance_app. simpl.
    rewrite <- Hb. tauto.
  - tauto.
Qed.

Lemma run_loop_books path rows :
  books INITIAL_BALANCE (run_loop rows (loaded path rows)).
Proof.
  unfold run_loop.
  apply (run_loop_invariant (books INITIAL_BALANCE)).
  - intros loc self r. apply step_books.
  - split; [exact I | reflexivity].
Qed.

(** C1.  Balance invariant: for every frame, the report's final balance is
    the initial balance plus the pnl of every Sell event of the journal,
    exactly; the pnls are added to the initial balance one after the other
    in journal order, the way the run accumulates them. *)
Theorem balance_invariant (path : string) (rows : list row) :
  returns (backtest path rows) (fun rep _ =>
    final_balance rep
    = add_all (initial_balance rep) (sell_pnls (report_trades rep))).
Proof.
  rewrite backtest_eq. unfold generate_report, returns.
  eexists; eexists; split; [reflexivity |]. simpl.
  destruct (run_loop_books path rows) as [Hl Hb].
  rewrite Hb. now apply ledger_sum.
Qed.

(** C8.  Running balance: for every frame and every Sell event of the
    journal, the recorded balance is the initial balance plus the pnl of
    that Sell and of all earlier Sells (added in journal order); it is the
    balance recorded by the previous Sell, or the initial balance when
    there is none, plus its own pnl; and the balance recorded by the last
    Sell of the journal is the report's final balance. *)
Theorem sell_balance_running (path : string) (rows : list row) :
  returns (backtest path rows) (fun rep _ =>
    forall pre p t pnl bal post,
      report_trades rep = pre ++ SELL p t pnl bal :: post ->
      bal = add_all (initial_balance rep) (sell_pnls (pre ++ [SELL p t pnl bal]))
      /\ bal = last_sell_balance (initial_balance rep) pre + pnl
      /\ (filter is_sell post = [] -> bal = final_balance rep)).
Proof.
  rewrite backtest_eq. unfold generate_report, returns.
  eexists; eexists; split; [reflexivity |]. simpl.
  intros pre p t pnl bal post E.
  destruct (run_loop_books path rows) as [Hl Hb].
  rewrite E in Hl, Hb.
  apply ledger_app in Hl. destruct Hl as [Hpre [Hbal Hpost]].
  split; [| split].
  - rewrite <- ledger_sum.
    + rewrite last_sell_balance_app. reflexivity.
    + apply ledger_app. simpl. tauto.
  - exact Hbal.
  - intros Hno. rewrite Hb, last_sell_balance_app. simpl.
    symmetry. now apply last_sell_balance_no_sell.
Qed.

(** * The journal: order of the events *)

Lemma open_position_snoc l t : open_position (l ++ [t]) = is_buy t.
Proof. unfold open_position. rewrite fold_left_app. reflexivity. Qed.

Lemma count_buys_snoc l t :
  count_buys (l ++ [t]) = (count_buys l + if is_buy t then 1 else 0)%nat.
Proof.
  unfold count_buys. rewrite filter_app, length_app. simpl.
  destruct (is_buy t); reflexivity.
Qed.

Lemma count_sells_snoc l t :
  count_sells (l ++ [t]) = (count_sells l + if is_sell t then 1 else 0)%nat.
Proof.
  unfold count_sells. rewrite filter_app, length_app. simpl.
  destruct (is_sell t); reflexivity.
Qed.

Lemma alternating_snoc l t :
  alternating l -> is_buy t = Nat.even (length l) -> alternating (l ++ [t]).
Proof.
  intros Hl Ht i u Hi.
  destruct (Nat.lt_ge_cases i (length l)) as [Hlt | Hge].
  - rewrite nth_error_app1 in Hi by exact Hlt. now apply Hl.
  - rewrite nth_error_app2 in Hi by exact Hge.
    destruct (i - length l)%nat as [| j] eqn:Ej; simpl in Hi.
    + injection Hi as <-. replace i with (length l) by lia. exact Ht.
    + destruct j; discriminate.
Qed.

Lemma alternating_no_repeat l : alternating l -> no_repeat l.
Proof.
  intros Hl i a b Ha Hb.
  rewrite (Hl _ _ Ha), (Hl _ _ Hb), Nat.even_succ.
  unfold Nat.odd. now rewrite negb_involutive.
Qed.

Lemma no_repeat_cons a b l :
  no_repeat (a :: b :: l) <-> is_buy a = negb (is_buy b) /\ no_repeat (b :: l).
Proof.
  split.
  - intros H. split.
    + now apply (H 0%nat a b).
    + intros i x y Hx Hy. now apply (H (S i) x y).
  - intros [H1 H2] [| i] x y Hx Hy; simpl in *.
    + injection Hx as <-. injection Hy as <-. exact H1.
    + now apply (H2 i x y).
Qed.

(** [no_repeatb] decides [no_repeat]. *)
Lemma no_repeatb_spec l : no_repeatb l = true <-> no_repeat l.
Proof.
  induction l as [| a l IH].
  - split; [| reflexivity]. intros _ [| i] a b Ha; discriminate.
  - destruct l as [| b l].
    + split; [| reflexivity].
      intros _ [| i] x y Hx Hy; simpl in *; [discriminate | destruct i; discriminate].
    + rewrite no_repeat_cons, <- IH.
      change (no_repeatb (a :: b :: l))
        with (negb (Bool.eqb (is_buy a) (is_buy b)) && no_repeatb (b :: l)).
      rewrite andb_true_iff, negb_true_iff.
      destruct (is_buy a), (is_buy b); simpl; intuition congruence.
Qed.

Lemma step_journal_ok loc self r :
  journal_ok (loc, self) -> journal_ok (step (loc, self) r).
Proof.
  unfold journal_ok. intros (Ha & Hodd & Hopen & Hcount).
  destruct (step_spec loc self r) as [Hp Hr | Hp Hr |]; simpl in *.
  - rewrite Hp in *. repeat split.
    + apply alternating_snoc; [exact Ha |]. simpl.
      unfold Nat.odd in Hodd. symmetry in Hodd.
      apply negb_false_iff in Hodd. now rewrite Hodd.
    + rewrite length_app. simpl. rewrite Nat.add_1_r, Nat.odd_succ.
      unfold Nat.odd in Hodd. symmetry in Hodd.
      apply negb_false_iff in Hodd. now rewrite Hodd.
    + now rewrite open_position_snoc.
    + rewrite count_buys_snoc, count_sells_snoc. simpl. lia.
  - rewrite Hp in *. repeat split.
    + apply alternating_snoc; [exact Ha |]. simpl.
      unfold Nat.odd in Hodd. symmetry in Hodd.
      apply negb_true_iff in Hodd. now rewrite Hodd.
    + rewrite length_app. simpl. rewrite Nat.add_1_r, Nat.odd_succ.
      unfold Nat.odd in Hodd. symmetry in Hodd.
      apply negb_true_iff in Hodd. now rewrite Hodd.
    + now rewrite open_position_snoc.
    + rewrite count_buys_snoc, count_sells_snoc. simpl. lia.
  - tauto.
Qed.

Lemma run_loop_journal_ok path rows :
  journal_ok (run_loop rows (loaded path rows)).
Proof.
  unfold run_loop.
  apply (run_loop_invariant journal_ok).
  - intros loc self r. apply step_journal_ok.
  - repeat split. intros [| i] t Hi; discriminate.
Qed.

(** From a Long state an iteration either changes nothing or closes the
    position with one Sell event; it never appends a Buy. *)
Lemma step_from_long ep et self r :
  let st' := step (mkLocals true ep et, self) r in
  st' = (mkLocals true ep et, self)
  \/ (in_position (fst st') = false
      /\ exists sell, is_sell sell = true
                      /\ trades (snd st') = trades self ++ [sell]).
Proof.
  cbv zeta. destruct (step_spec (mkLocals true ep et) self r) as [Hp Hr | Hp Hr |].
  - discriminate.
  - right. split; [reflexivity |]. eexists. split; [| reflexivity]. reflexivity.
  - now left.
Qed.

(** C3.  Warm-up inertness: an iteration on a tick whose RSI is undefined
    (NaN) leaves the loop state as it is, whatever the price and the
    position: no journal entry, no transition, no balance change; hence a
    run is not altered by such a tick anywhere in the frame. *)
Theorem warmup_inert (loc : locals) (self : BacktestEngine) (r : row) :
  is_nan (rsi_14 r) = true ->
  step (loc, self) r = (loc, self)
  /\ forall rows1 rows2 self0,
       run_loop (rows1 ++ r :: rows2) self0 = run_loop (rows1 ++ rows2) self0.
Proof.
  intros Hnan.
  assert (Hstep : forall st, step st r = st).
  { intros [loc' self']. unfold step.
    rewrite (nan_ltb_l _ 30 Hnan), (nan_ltb_r _ 70 Hnan).
    now rewrite !andb_false_r. }
  split; [apply Hstep |].
  intros rows1 rows2 self0. rewrite !run_loop_app. simpl.
  now rewrite Hstep.
Qed.

(** C4.  Mutual exclusion: after every prefix of the frame the position
    flag says Long exactly when the journal ends with a Buy (and Flat
    otherwise); an iteration that starts Long either changes nothing or
    closes the position with one Sell, so it never enters again; and no two
    neighbours of the final journal have the same type. *)
Theorem mutual_exclusion (path : string) (rows : list row) :
  (forall k,
     let st := state_after k rows (loaded path rows) in
     in_position (fst st) = open_position (trades (snd st)))
  /\ (forall ep et self r,
        let st' := step (mkLocals true ep et, self) r in
        st' = (mkLocals true ep et, self)
        \/ (in_position (fst st') = false
            /\ exists sell, is_sell sell = true
                            /\ trades (snd st') = trades self ++ [sell]))
  /\ returns (backtest path rows) (fun rep _ => no_repeat (report_trades rep)).
Proof.
  split; [| split].
  - intros k st. subst st. unfold state_after, run_loop.
    apply (run_loop_invariant journal_ok).
    + intros loc self r. apply step_journal_ok.
    + repeat split. intros [| i] t Hi; discriminate.
  - intros ep et self r. apply step_from_long.
  - rewrite backtest_eq. unfold generate_report, returns.
    eexists; eexists; split; [reflexivity |]. simpl.
    apply alternating_no_repeat, (run_loop_journal_ok path rows).
Qed.

(** C9.  Alternation: for every frame the journal, when it is not empty,
    starts with a Buy; its events alternate Buy, Sell, Buy, Sell, ...; and
    there are as many Buy events as Sell events, or one more. *)
Theorem journal_alternates (path : string) (rows : list row) :
  returns (backtest path rows) (fun rep _ =>
    match report_trades rep with
    | [] => True
    | t :: _ => is_buy t = true
    end
    /\ alternating (report_trades rep)
    /\ (count_buys (report_trades rep) = count_sells (report_trades rep)
        \/ count_buys (report_trades rep) = S (count_sells (report_trades rep)))).
Proof.
  rewrite backtest_eq. unfold generate_report, returns.
  eexists; eexists; split; [reflexivity |]. simpl.
  destruct (run_loop_journal_ok path rows) as (Ha & _ & _ & Hc).
  split; [| split].
  - destruct (trades _) as [| t l] eqn:E; [exact I |].
    now apply (Ha 0%nat t).
  - exact Ha.
  - destruct (in_position _); lia.
Qed.

(** A run that ends Long entered at some row [r] from a Flat state, and
    nothing was appended nor paid since. *)
Lemma long_origin self rows :
  in_position (fst (run_loop rows self)) = true ->
  exists rows1 r rows2,
    rows = rows1 ++ r :: rows2
    /\ in_position (fst (run_loop rows1 self)) = false
    /\ trades (snd (run_loop rows self))
       = trades (snd (run_loop rows1 self)) ++ [BUY (price r) (time r)]
    /\ balance (snd (run_loop rows self)) = balance (snd (run_loop rows1 self)).
Proof.
  induction rows as [| x rows IH] using rev_ind; intros Hlong.
  - discriminate.
  - rewrite run_loop_snoc in *.
    pose proof (step_spec (fst (run_loop rows self)) (snd (run_loop rows self)) x) as Hk.
    rewrite <- surjective_pairing in Hk.
    inversion Hk as [Hp Hr Heq | Hp Hr Heq | Heq].
    + exists rows, x, []. simpl. auto.
    + rewrite <- Heq in Hlong. discriminate.
    + rewrite <- Heq in Hlong.
      destruct (IH Hlong) as (rows1 & r & rows2 & E & Hflat & Htr & Hbal).
      exists rows1, r, (rows2 ++ [x]).
      rewrite E at 1. rewrite <- app_assoc. simpl. auto.
Qed.

(** C6.  Unclosed position: when the loop ends Long, the position was
    opened at some row [r] of the frame from a Flat state; the journal is
    the journal as it stood before [r] followed by that Buy, with no Sell
    after it; the report counts the Sell events that came before, one less
    than the Buy events; and the final balance is the balance as it stood
    before [r]. *)
Theorem open_position_left_open (path : string) (rows : list row) :
  in_position (fst (run_loop rows (loaded path rows))) = true ->
  exists rows1 r rows2,
    rows = rows1 ++ r :: rows2
    /\ in_position (fst (run_loop rows1 (loaded path rows))) = false
    /\ returns (backtest path rows) (fun rep _ =>
         report_trades rep
         = trades (snd (run_loop rows1 (loaded path rows))) ++ [BUY (price r) (time r)]
         /\ total_trades rep = count_sells (trades (snd (run_loop rows1 (loaded path rows))))
         /\ S (total_trades rep) = count_buys (report_trades rep)
         /\ final_balance rep = balance (snd (run_loop rows1 (loaded path rows)))).
Proof.
  intros Hlong.
  destruct (long_origin _ _ Hlong) as (rows1 & r & rows2 & E & Hflat & Htr & Hbal).
  exists rows1, r, rows2. split; [exact E |]. split; [exact Hflat |].
  rewrite backtest_eq. unfold generate_report, returns.
  eexists; eexists; split; [reflexivity |]. simpl.
  destruct (run_loop_journal_ok path rows) as (_ & _ & _ & Hc).
  rewrite Hlong in Hc. unfold count_sells in *.
  rewrite Hc, Htr, filter_app, length_app. simpl.
  repeat split; try lia. exact Hbal.
Qed.

(** * Rounding in binary64

    What the division and the multiplication of the win rate round to,
    from [SpecFloat]'s definitions of the two operations. *)

Section Rounding.

Local Open Scope Z_scope.

(** ** The number of binary digits *)
Lemma digits2_pos_bounds (p : positive) :
  2 ^ (Zpos (digits2_pos p) - 1) <= Zpos p < 2 ^ Zpos (digits2_pos p).
Proof.
  induction p as [p IH | p IH |]; cbn [digits2_pos].
  - rewrite Pos2Z.inj_succ, Z.pow_succ_r by lia.
    replace (Z.succ (Zpos (digits2_pos p)) - 1) with (Z.succ (Zpos (digits2_pos p) - 1)) by lia.
    rewrite Z.pow_succ_r by lia. lia.
  - rewrite Pos2Z.inj_succ, Z.pow_succ_r by lia.
    replace (Z.succ (Zpos (digits2_pos p)) - 1) with (Z.succ (Zpos (digits2_pos p) - 1)) by lia.
    rewrite Z.pow_succ_r by lia. lia.
  - simpl. lia.
Qed.

Lemma Zdigits2_bounds (z : Z) :
  0 < z -> 2 ^ (Zdigits2 z - 1) <= z < 2 ^ Zdigits2 z.
Proof.
  destruct z as [| p | p]; try lia. intros _. apply digits2_pos_bounds.
Qed.

Lemma Zdigits2_pos (z : Z) : 0 < z -> 0 < Zdigits2 z.
Proof. destruct z; simpl; lia. Qed.

Lemma Zdigits2_unique (z n : Z) :
  2 ^ (n - 1) <= z < 2 ^ n -> 0 < n -> Zdigits2 z = n.
Proof.
  intros [Hlo Hhi] Hn.
  assert (Hz : 0 < z).
  { apply Z.lt_le_trans with (2 ^ (n - 1)); [apply Z.pow_pos_nonneg; lia | exact Hlo]. }
  pose proof (Zdigits2_bounds z Hz) as [Dlo Dhi].
  pose proof (Zdigits2_pos z Hz) as Dpos.
  assert (H1 : n - 1 < Zdigits2 z).
  { apply (Z.pow_lt_mono_r_iff 2); lia. }
  assert (H2 : Zdigits2 z - 1 < n).
  { apply (Z.pow_lt_mono_r_iff 2); lia. }
  lia.
Qed.

(** ** Shifting a mantissa right *)

Lemma loc_of_shr_record_exact mrs :
  loc_of_shr_record mrs = loc_Exact <-> shr_inexact mrs = false.
Proof. destruct mrs as [m [|] [|]]; unfold shr_inexact; simpl; split; congruence. Qed.

Lemma shr_1_shifted mrs : 0 <= shr_m mrs -> shifted 1 mrs (shr_1 mrs).
Proof.
  destruct mrs as [m r s]. unfold shifted, shr_inexact. simpl shr_m. intros Hm.
  change (2 ^ 1) with 2.
  destruct m as [| [p | p |] | p]; try lia; cbn [shr_1 shr_m shr_r shr_s].
  - split; [reflexivity |]. simpl. intros H. left. exact H.
  - split; [rewrite Pos2Z.inj_xI; apply Z.div_unique with 1; lia |].
    intros _. right. rewrite Pos2Z.inj_xI.
    rewrite Z.add_comm, Z.mul_comm, Z.mod_add by lia. discriminate.
  - split; [rewrite Pos2Z.inj_xO; apply Z.div_unique with 0; lia |].
    simpl. intros H. left. exact H.
  - split; [reflexivity |]. intros _. right. discriminate.
Qed.

Lemma shifted_trans j1 j2 a b c :
  0 <= shr_m a -> 0 < j1 -> 0 < j2 ->
  shifted j1 a b -> shifted j2 b c -> shifted (j1 + j2) a c.
Proof.
  intros Ha H1 H2 [Hb Fb] [Hc Fc]. unfold shifted.
  assert (P1 : 0 < 2 ^ j1) by (apply Z.pow_pos_nonneg; lia).
  assert (P2 : 0 < 2 ^ j2) by (apply Z.pow_pos_nonneg; lia).
  rewrite Z.pow_add_r by lia. split.
  - rewrite Hc, Hb. apply Z.div_div; lia.
  - intros F. destruct (Fc F) as [F' | Hmod].
    + destruct (Fb F') as [F'' | Hmod]; [now left |].
      right. intros E. apply Hmod.
      apply Z.mod_divide in E; [| lia]. apply Z.mod_divide; [lia |].
      destruct E as [q E]. exists (q * 2 ^ j2). lia.
    + right. intros E. apply Hmod. rewrite Hb.
      apply Z.mod_divide in E; [| lia]. apply Z.mod_divide; [lia |].
      destruct E as [q E]. exists q.
      rewrite E. replace (q * (2 ^ j1 * 2 ^ j2)) with (q * 2 ^ j2 * 2 ^ j1) by ring.
      rewrite Z.div_mul by lia. reflexivity.
Qed.

Lemma shifted_nonneg j a b : 0 <= shr_m a -> 0 <= j -> shifted j a b -> 0 <= shr_m b.
Proof.
  intros Ha Hj [Hb _]. rewrite Hb. apply Z.div_pos; [exact Ha |].
  apply Z.pow_pos_nonneg; lia.
Qed.

Lemma iter_pos_shifted (p : positive) : forall mrs,
  0 <= shr_m mrs -> shifted (Zpos p) mrs (SpecFloat.iter_pos shr_1 p mrs).
Proof.
  induction p as [p IH | p IH |]; intros mrs Hm; cbn [SpecFloat.iter_pos].
  - replace (Zpos p~1) with (1 + (Zpos p + Zpos p)) by lia.
    pose proof (shr_1_shifted mrs Hm) as S1.
    pose proof (shifted_nonneg 1 _ _ Hm ltac:(lia) S1) as N1.
    pose proof (IH _ N1) as S2.
    pose proof (shifted_nonneg (Zpos p) _ _ N1 ltac:(lia) S2) as N2.
    pose proof (IH _ N2) as S3.
    apply (shifted_trans 1 _ mrs (shr_1 mrs)); try lia; [exact S1 |].
    apply (shifted_trans _ _ _ (SpecFloat.iter_pos shr_1 p (shr_1 mrs))); try lia; assumption.
  - replace (Zpos p~0) with (Zpos p + Zpos p) by lia.
    pose proof (IH _ Hm) as S2.
    pose proof (shifted_nonneg (Zpos p) _ _ Hm ltac:(lia) S2) as N2.
    pose proof (IH _ N2) as S3.
    apply (shifted_trans _ _ _ (SpecFloat.iter_pos shr_1 p mrs)); try lia; assumption.
  - apply shr_1_shifted, Hm.
Qed.

Lemma shifted_0 a : shifted 0 a a.
Proof.
  unfold shifted. change (2 ^ 0) with 1. rewrite Z.div_1_r. split; [reflexivity | now left].
Qed.

Lemma shr_shifted mrs e n :
  0 <= shr_m mrs ->
  snd (shr mrs e n) = e + Z.max n 0
  /\ shifted (Z.max n 0) mrs (fst (shr mrs e n)).
Proof.
  intros Hm. destruct n as [| p | p]; cbn [shr fst snd].
  - rewrite Z.add_0_r. split; [reflexivity | apply shifted_0].
  - rewrite Z.max_l by lia. split; [reflexivity | now apply iter_pos_shifted].
  - rewrite Z.max_r by lia. rewrite Z.add_0_r. split; [reflexivity | apply shifted_0].
Qed.

Lemma shr_1_round_bit mrs : 0 <= shr_m mrs -> round_bit 1 mrs (shr_1 mrs).
Proof.
  destruct mrs as [m r s]. unfold round_bit. simpl shr_m. intros Hm.
  change (2 ^ (1 - 1)) with 1. change (2 ^ 1) with 2.
  destruct m as [| [p | p |] | p]; try lia; cbn [shr_1 shr_m shr_r shr_s];
    intros H; try discriminate.
  rewrite Pos2Z.inj_xI, Z.add_comm, Z.mul_comm, Z.mod_add by lia.
  change (1 mod 2) with 1. lia.
Qed.

Lemma round_bit_trans j1 j2 a b c :
  0 <= shr_m a -> 0 < j1 -> 0 < j2 ->
  shifted j1 a b -> round_bit j2 b c -> round_bit (j1 + j2) a c.
Proof.
  intros Ha H1 H2 [Hb _] Hc Hr. specialize (Hc Hr). rewrite Hb in Hc.
  assert (P1 : 0 < 2 ^ j1) by (apply Z.pow_pos_nonneg; lia).
  assert (P2 : 0 < 2 ^ j2) by (apply Z.pow_pos_nonneg; lia).
  rewrite Z.pow_add_r, Z.rem_mul_r by lia.
  replace (j1 + j2 - 1) with (j1 + (j2 - 1)) by lia. rewrite Z.pow_add_r by lia.
  pose proof (Z.mod_pos_bound (shr_m a) (2 ^ j1) P1). nia.
Qed.

Lemma iter_pos_round_bit (p : positive) : forall mrs,
  0 <= shr_m mrs -> round_bit (Zpos p) mrs (SpecFloat.iter_pos shr_1 p mrs).
Proof.
  induction p as [p IH | p IH |]; intros mrs Hm; cbn [SpecFloat.iter_pos].
  - replace (Zpos p~1) with ((1 + Zpos p) + Zpos p) by lia.
    pose proof (shr_1_shifted mrs Hm) as S1.
    pose proof (shifted_nonneg 1 _ _ Hm ltac:(lia) S1) as N1.
    pose proof (iter_pos_shifted p _ N1) as S2.
    pose proof (shifted_nonneg (Zpos p) _ _ N1 ltac:(lia) S2) as N2.
    apply (round_bit_trans _ _ _ (SpecFloat.iter_pos shr_1 p (shr_1 mrs))); try lia.
    + apply (shifted_trans 1 _ mrs (shr_1 mrs)); try lia; assumption.
    + apply IH, N2.
  - replace (Zpos p~0) with (Zpos p + Zpos p) by lia.
    pose proof (iter_pos_shifted p _ Hm) as S2.
    pose proof (shifted_nonneg (Zpos p) _ _ Hm ltac:(lia) S2) as N2.
    apply (round_bit_trans _ _ _ (SpecFloat.iter_pos shr_1 p mrs)); try lia; [exact S2 |].
    apply IH, N2.
  - apply shr_1_round_bit, Hm.
Qed.

Lemma shr_round_bit mrs e n :
  0 <= shr_m mrs -> 0 < n -> round_bit n mrs (fst (shr mrs e n)).
Proof.
  intros Hm Hn. destruct n as [| p | p]; try lia. cbn [shr fst].
  now apply iter_pos_round_bit.
Qed.

(** ** Rounding to nearest even *)

Lemma fexp_eq x : fexp prec emax x = Z.max (x - 53) (-1074).
Proof. reflexivity. Qed.

Lemma binary_round_aux_pair sx mx ex lx :
  binary_round_aux prec emax sx mx ex lx
  = match fst (round_pair mx ex lx) with
    | Z0 => S754_zero sx
    | Zpos m =>
        if snd (round_pair mx ex lx) <=? emax - prec
        then S754_finite sx m (snd (round_pair mx ex lx))
        else S754_infinity sx
    | Zneg _ => S754_nan
    end.
Proof.
  unfold binary_round_aux, round_pair.
  destruct (shr_fexp prec emax mx ex lx) as [mrs' e'].
  destruct (shr_fexp prec emax _ e' loc_Exact) as [mrs'' e'']. reflexivity.
Qed.

Lemma round_nearest_even_spec m l :
  m <= round_nearest_even m l <= m + 1
  /\ (round_nearest_even m l = m + 1 -> l <> loc_Exact).
Proof.
  destruct l as [| [| |]]; cbn [round_nearest_even].
  - split; [lia |]. intros H. lia.
  - destruct (Z.even m); split; try lia; intros _; discriminate.
  - split; [lia |]. intros H. lia.
  - split; [lia |]. intros _. discriminate.
Qed.

Lemma shr_m_of_loc m l : shr_m (shr_record_of_loc m l) = m.
Proof. destruct l as [| [| |]]; reflexivity. Qed.

Lemma shr_inexact_of_loc m l : shr_inexact (shr_record_of_loc m l) = true -> l <> loc_Exact.
Proof. destruct l as [| [| |]]; unfold shr_inexact; simpl; congruence. Qed.

Lemma shr_fexp_spec m e l :
  0 <= m ->
  snd (shr_fexp prec emax m e l) = e + shift_of m e
  /\ shr_m (fst (shr_fexp prec emax m e l)) = m / 2 ^ shift_of m e
  /\ (loc_of_shr_record (fst (shr_fexp prec emax m e l)) <> loc_Exact ->
      l <> loc_Exact \/ m mod 2 ^ shift_of m e <> 0).
Proof.
  intros Hm. unfold shr_fexp, shift_of.
  set (n := fexp prec emax (Zdigits2 m + e) - e).
  destruct (shr_shifted (shr_record_of_loc m l) e n) as [He [Hs Hf]].
  { now rewrite shr_m_of_loc. }
  rewrite shr_m_of_loc in Hs, Hf.
  split; [exact He |]. split; [exact Hs |].
  intros Hl.
  assert (F : shr_inexact (fst (shr (shr_record_of_loc m l) e n)) = true).
  { destruct (shr_inexact _) eqn:E; [reflexivity |].
    apply loc_of_shr_record_exact in E. contradiction. }
  destruct (Hf F) as [F' | Hmod]; [left; now apply (shr_inexact_of_loc m) | now right].
Qed.

Lemma round_up_bit mrs :
  round_nearest_even (shr_m mrs) (loc_of_shr_record mrs) = shr_m mrs + 1 ->
  shr_r mrs = true.
Proof.
  destruct mrs as [m [|] [|]]; cbn [shr_m shr_r loc_of_shr_record round_nearest_even];
    intros H; try reflexivity; lia.
Qed.

Lemma shr_fexp_round_bit m e :
  0 <= m ->
  shr_r (fst (shr_fexp prec emax m e loc_Exact)) = true ->
  0 < shift_of m e /\ 2 ^ (shift_of m e - 1) <= m mod 2 ^ shift_of m e.
Proof.
  intros Hm. unfold shr_fexp, shift_of.
  set (n := fexp prec emax (Zdigits2 m + e) - e).
  destruct (Z.lt_ge_cases 0 n) as [Hn | Hn].
  - rewrite Z.max_l by lia. intros Hr. split; [exact Hn |].
    exact (shr_round_bit (shr_record_of_loc m loc_Exact) e n Hm Hn Hr).
  - destruct n as [| p | p]; try lia; cbn; discriminate.
Qed.

(** The mantissa and exponent [binary_round_aux] ends with. *)
Lemma round_pair_spec mx ex lx :
  0 <= mx ->
  exists m1,
    mx / 2 ^ shift_of mx ex <= m1 <= mx / 2 ^ shift_of mx ex + 1
    /\ (m1 = mx / 2 ^ shift_of mx ex + 1 ->
        lx <> loc_Exact \/ mx mod 2 ^ shift_of mx ex <> 0)
    /\ (lx = loc_Exact -> m1 = mx / 2 ^ shift_of mx ex + 1 ->
        0 < shift_of mx ex /\ 2 ^ (shift_of mx ex - 1) <= mx mod 2 ^ shift_of mx ex)
    /\ round_pair mx ex lx
       = (m1 / 2 ^ shift_of m1 (ex + shift_of mx ex),
          ex + shift_of mx ex + shift_of m1 (ex + shift_of mx ex)).
Proof.
  intros Hm. unfold round_pair.
  destruct (shr_fexp_spec mx ex lx Hm) as (He & Hs & Hf).
  assert (Hrb : lx = loc_Exact -> shr_r (fst (shr_fexp prec emax mx ex lx)) = true ->
                0 < shift_of mx ex /\ 2 ^ (shift_of mx ex - 1) <= mx mod 2 ^ shift_of mx ex).
  { intros ->. now apply shr_fexp_round_bit. }
  destruct (shr_fexp prec emax mx ex lx) as [mrs' e']. cbn [fst snd] in He, Hs, Hf, Hrb.
  set (m1 := round_nearest_even (shr_m mrs') (loc_of_shr_record mrs')).
  destruct (round_nearest_even_spec (shr_m mrs') (loc_of_shr_record mrs')) as [Hb Hup].
  pose proof (round_up_bit mrs') as Hbit.
  fold m1 in Hb, Hup, Hbit.
  assert (H0 : 0 <= shr_m mrs').
  { rewrite Hs. apply Z.div_pos; [exact Hm |]. apply Z.pow_pos_nonneg; [lia |].
    unfold shift_of. lia. }
  assert (Hm1 : 0 <= m1) by lia.
  destruct (shr_fexp_spec m1 e' loc_Exact Hm1) as (He2 & Hs2 & _).
  destruct (shr_fexp prec emax m1 e' loc_Exact) as [mrs'' e'']. cbn [fst snd] in He2, Hs2.
  exists m1. rewrite <- Hs. split; [exact Hb |]. split; [| split].
  - intros E. apply Hf, Hup, E.
  - intros Hl E. apply (Hrb Hl), Hbit, E.
  - subst e' e''. now rewrite Hs2.
Qed.

Lemma pow2_pos (k : Z) : 0 <= k -> 0 < 2 ^ k.
Proof. intros H. apply Z.pow_pos_nonneg; lia. Qed.

Lemma div_pow2_digits (m d k : Z) :
  2 ^ (d - 1) <= m < 2 ^ d -> 0 <= k -> k < d ->
  2 ^ (d - k - 1) <= m / 2 ^ k < 2 ^ (d - k).
Proof.
  intros [Hlo Hhi] Hk Hd.
  pose proof (pow2_pos k Hk) as Pk.
  split.
  - apply Z.div_le_lower_bound; [exact Pk |].
    rewrite <- Z.pow_add_r by lia. replace (k + (d - k - 1)) with (d - 1) by lia. exact Hlo.
  - apply Z.div_lt_upper_bound; [exact Pk |].
    rewrite <- Z.pow_add_r by lia. replace (k + (d - k)) with d by lia. exact Hhi.
Qed.

(** Rounding a mantissa of at least 53 digits in the normal range: [m1]
    is the mantissa cut to 53 digits and rounded, before a carry into a
    54th digit is shifted out. *)
Lemma round_pair_normal_core mx ex lx :
  0 < mx -> 53 <= Zdigits2 mx -> -1021 <= Zdigits2 mx + ex ->
  exists m1 m2 e2,
    round_pair mx ex lx = (m2, e2)
    /\ 2 ^ 52 <= m2 < 2 ^ 53
    /\ Zdigits2 mx + ex - 53 <= e2 <= Zdigits2 mx + ex - 52
    /\ m2 * 2 ^ (e2 - (Zdigits2 mx + ex - 53)) = m1
    /\ mx / 2 ^ (Zdigits2 mx - 53) <= m1 <= mx / 2 ^ (Zdigits2 mx - 53) + 1
    /\ (m1 = mx / 2 ^ (Zdigits2 mx - 53) + 1 ->
        lx <> loc_Exact \/ mx mod 2 ^ (Zdigits2 mx - 53) <> 0)
    /\ (lx = loc_Exact -> m1 = mx / 2 ^ (Zdigits2 mx - 53) + 1 ->
        0 < Zdigits2 mx - 53
        /\ 2 ^ (Zdigits2 mx - 53 - 1) <= mx mod 2 ^ (Zdigits2 mx - 53))
    /\ (m1 < 2 ^ 53 -> e2 = Zdigits2 mx + ex - 53).
Proof.
  intros Hpos Hd Hn.
  pose proof (Zdigits2_bounds mx Hpos) as Hb.
  assert (Hk1 : shift_of mx ex = Zdigits2 mx - 53).
  { unfold shift_of. rewrite fexp_eq. lia. }
  remember (Zdigits2 mx) as d eqn:Ed.
  destruct (round_pair_spec mx ex lx) as (m1 & Hm1 & Hup & Hhalf & Hrp); [lia |].
  rewrite Hk1 in Hm1, Hup, Hhalf, Hrp.
  remember (mx / 2 ^ (d - 53)) as a eqn:Ea.
  assert (Ha : 2 ^ 52 <= a < 2 ^ 53).
  { pose proof (div_pow2_digits mx d (d - 53) Hb ltac:(lia) ltac:(lia)) as H.
    replace (d - (d - 53) - 1) with 52 in H by lia.
    replace (d - (d - 53)) with 53 in H by lia. now rewrite Ea. }
  destruct (Z.lt_ge_cases m1 (2 ^ 53)) as [Hlt | Hge].
  - (* no carry *)
    assert (D1 : Zdigits2 m1 = 53).
    { apply Zdigits2_unique; [| lia]. replace (53 - 1) with 52 by lia. lia. }
    assert (Hk2 : shift_of m1 (ex + (d - 53)) = 0).
    { unfold shift_of. rewrite D1, fexp_eq. lia. }
    rewrite Hk2 in Hrp. change (2 ^ 0) with 1 in Hrp. rewrite Z.div_1_r, Z.add_0_r in Hrp.
    exists m1, m1, (ex + (d - 53)). split; [exact Hrp |]. split; [lia |]. split; [lia |].
    split; [| split; [exact Hm1 | split; [exact Hup | split; [exact Hhalf | lia]]]].
    replace (ex + (d - 53) - (d + ex - 53)) with 0 by lia.
    change (2 ^ 0) with 1. lia.
  - (* carry: the rounded mantissa is 2^53 *)
    assert (E1 : m1 = 2 ^ 53) by lia.
    assert (D1 : Zdigits2 m1 = 54).
    { apply Zdigits2_unique; [| lia]. replace (54 - 1) with 53 by lia.
      rewrite E1. split; [lia |]. apply Z.pow_lt_mono_r; lia. }
    assert (Hk2 : shift_of m1 (ex + (d - 53)) = 1).
    { unfold shift_of. rewrite D1, fexp_eq. lia. }
    rewrite Hk2 in Hrp.
    assert (E2 : m1 / 2 ^ 1 = 2 ^ 52).
    { rewrite E1. change (2 ^ 1) with 2. replace (2 ^ 53) with (2 ^ 52 * 2) by reflexivity.
      apply Z.div_mul. lia. }
    rewrite E2 in Hrp.
    exists m1, (2 ^ 52), (ex + (d - 53) + 1). split; [exact Hrp |].
    split; [split; [lia | apply Z.pow_lt_mono_r; lia] |]. split; [lia |].
    split; [| split; [exact Hm1 | split; [exact Hup | split; [exact Hhalf | lia]]]].
    replace (ex + (d - 53) + 1 - (d + ex - 53)) with 1 by lia.
    rewrite E1. reflexivity.
Qed.

(** The rounded number is not above a 53-digit number that the exact one
    is not above, and it is the exact one when that has 53 digits. *)
Lemma round_pair_normal mx ex lx :
  0 < mx -> 53 <= Zdigits2 mx -> -1021 <= Zdigits2 mx + ex ->
  exists m2 e2,
    round_pair mx ex lx = (m2, e2)
    /\ 2 ^ 52 <= m2 < 2 ^ 53
    /\ Zdigits2 mx + ex - 53 <= e2 <= Zdigits2 mx + ex - 52
    /\ (forall b,
          mx <= b * 2 ^ (Zdigits2 mx - 53) ->
          (lx <> loc_Exact -> mx < b * 2 ^ (Zdigits2 mx - 53)) ->
          m2 * 2 ^ (e2 - (Zdigits2 mx + ex - 53)) <= b)
    /\ (Zdigits2 mx = 53 -> lx = loc_Exact -> m2 = mx /\ e2 = ex).
Proof.
  intros Hpos Hd Hn.
  destruct (round_pair_normal_core mx ex lx Hpos Hd Hn)
    as (m1 & m2 & e2 & Hrp & Hm2 & He2 & Hval & Hm1 & Hup & _ & Hnc).
  remember (Zdigits2 mx) as d eqn:Ed.
  assert (P : 0 < 2 ^ (d - 53)) by (apply pow2_pos; lia).
  remember (mx / 2 ^ (d - 53)) as a eqn:Ea.
  exists m2, e2. split; [exact Hrp |]. split; [exact Hm2 |]. split; [exact He2 |]. split.
  - intros b Hle Hlt. rewrite Hval.
    assert (Hab : a <= b).
    { rewrite Ea. apply Z.div_le_upper_bound; [exact P | lia]. }
    destruct (Z.eq_dec m1 (a + 1)) as [E | NE]; [| lia].
    assert (Hstrict : mx < b * 2 ^ (d - 53)).
    { destruct (Hup E) as [Hl | Hmod]; [now apply Hlt |].
      destruct (Z.eq_dec mx (b * 2 ^ (d - 53))) as [E' | NE']; [| lia].
      exfalso. apply Hmod. rewrite E'. apply Z.mod_mul. lia. }
    assert (a < b); [| lia].
    rewrite Ea. apply Z.div_lt_upper_bound; [exact P | lia].
  - intros D53 Hl. rewrite D53 in *. replace (53 - 53) with 0 in * by lia.
    change (2 ^ 0) with 1 in *. rewrite Z.div_1_r in Ea. subst a.
    pose proof (Zdigits2_bounds mx Hpos) as Hb. rewrite <- Ed in Hb.
    replace (53 - 1) with 52 in Hb by lia.
    assert (E : m1 = mx).
    { destruct (Z.eq_dec m1 (mx + 1)) as [E | NE]; [| lia].
      destruct (Hup E) as [Hl' | Hmod]; [contradiction |].
      exfalso. apply Hmod. apply Z.mod_1_r. }
    assert (E2 : e2 = 53 + ex - 53) by (apply Hnc; lia).
    rewrite E2 in Hval. replace (53 + ex - 53 - (53 + ex - 53)) with 0 in Hval by lia.
    change (2 ^ 0) with 1 in Hval. lia.
Qed.

(** Rounding to nearest: the rounded number is not below a 53-digit
    number that the exact one is not below, and not above one that the
    exact one is less than half a unit above. *)
Lemma round_pair_normal_nearest mx ex :
  0 < mx -> 53 <= Zdigits2 mx -> -1021 <= Zdigits2 mx + ex ->
  exists m2 e2,
    round_pair mx ex loc_Exact = (m2, e2)
    /\ (forall b,
          b * 2 ^ (Zdigits2 mx - 53) <= mx ->
          b <= m2 * 2 ^ (e2 - (Zdigits2 mx + ex - 53)))
    /\ (forall b,
          2 * mx < (2 * b + 1) * 2 ^ (Zdigits2 mx - 53) ->
          m2 * 2 ^ (e2 - (Zdigits2 mx + ex - 53)) <= b).
Proof.
  intros Hpos Hd Hn.
  destruct (round_pair_normal_core mx ex loc_Exact Hpos Hd Hn)
    as (m1 & m2 & e2 & Hrp & Hm2 & He2 & Hval & Hm1 & _ & Hhalf & _).
  remember (Zdigits2 mx) as d eqn:Ed.
  assert (P : 0 < 2 ^ (d - 53)) by (apply pow2_pos; lia).
  remember (mx / 2 ^ (d - 53)) as a eqn:Ea.
  pose proof (Z.div_mod mx (2 ^ (d - 53)) ltac:(lia)) as Hdm. rewrite <- Ea in Hdm.
  pose proof (Z.mod_pos_bound mx (2 ^ (d - 53)) P) as Hr.
  exists m2, e2. split; [exact Hrp |]. rewrite Hval. split.
  - intros b Hle.
    assert (b <= a); [| lia].
    rewrite Ea. apply Z.div_le_lower_bound; [exact P | lia].
  - intros b Hlt.
    destruct (Z.eq_dec m1 (a + 1)) as [E | NE].
    + destruct (Hhalf eq_refl E) as [Hs Hge].
      assert (Hp : 2 ^ (d - 53) = 2 * 2 ^ (d - 53 - 1)).
      { rewrite <- Z.pow_succ_r by lia. f_equal. lia. }
      pose proof (pow2_pos (d - 53 - 1) ltac:(lia)) as P'.
      nia.
    + assert (a <= b); [| lia]. nia.
Qed.

(** ** Normal numbers *)

Lemma is_normal_valid f m e : is_normal f m e -> valid_binary f = true.
Proof.
  intros (-> & Hm & He). unfold SpecFloat.valid_binary, bounded, canonical_mantissa.
  assert (D : Zpos (digits2_pos (Z.to_pos m)) = 53).
  { change (Zpos (digits2_pos (Z.to_pos m))) with (Zdigits2 (Zpos (Z.to_pos m))).
    rewrite Z2Pos.id by lia. apply Zdigits2_unique; [| lia].
    replace (53 - 1) with 52 by lia. exact Hm. }
  rewrite D, fexp_eq. apply andb_true_iff. split.
  - apply Z.eqb_eq. lia.
  - apply Z.leb_le. change (emax - prec) with 971. lia.
Qed.

(** What [binary_round_aux] returns on a mantissa of at least 53 digits in
    the normal range: an infinity or a normal float. *)
Lemma binary_round_aux_normal mx ex lx :
  0 < mx -> 53 <= Zdigits2 mx -> -1021 <= Zdigits2 mx + ex ->
  exists m2 e2,
    round_pair mx ex lx = (m2, e2)
    /\ 2 ^ 52 <= m2 < 2 ^ 53
    /\ Zdigits2 mx + ex - 53 <= e2 <= Zdigits2 mx + ex - 52
    /\ (binary_round_aux prec emax false mx ex lx = S754_infinity false /\ 971 < e2
        \/ is_normal (binary_round_aux prec emax false mx ex lx) m2 e2).
Proof.
  intros Hpos Hd Hn.
  destruct (round_pair_normal mx ex lx Hpos Hd Hn) as (m2 & e2 & Hrp & Hm & He & _).
  exists m2, e2. split; [exact Hrp |]. split; [exact Hm |]. split; [exact He |].
  rewrite binary_round_aux_pair, Hrp. cbn [fst snd].
  destruct m2 as [| p | p]; try lia.
  change (emax - prec) with 971.
  destruct (Z.leb_spec e2 971) as [Hle | Hgt].
  - right. split; [reflexivity |]. split; [exact Hm | lia].
  - left. split; [reflexivity | exact Hgt].
Qed.

(** ** The conversion of an int *)
Lemma Pos_iter_xO (p n : positive) : Zpos (Pos.iter xO p n) = Zpos p * 2 ^ Zpos n.
Proof.
  rewrite <- Z.shiftl_mul_pow2 by lia. cbn [Z.shiftl].
  apply (Pos.iter_swap_gen _ _ Zpos xO (Z.mul 2)). reflexivity.
Qed.

Lemma shl_align_spec (p : positive) (e e' : Z) :
  Zpos (fst (shl_align p e e')) = Zpos p * 2 ^ Z.max (e - e') 0
  /\ snd (shl_align p e e') = e - Z.max (e - e') 0.
Proof.
  unfold shl_align. destruct (e' - e) as [| d | d] eqn:E; cbn [fst snd].
  - rewrite Z.max_r by lia. change (2 ^ 0) with 1. lia.
  - rewrite Z.max_r by lia. change (2 ^ 0) with 1. lia.
  - rewrite Z.max_l by lia. rewrite Pos_iter_xO.
    replace (e - e') with (Zpos d) by lia. lia.
Qed.

Lemma mul_pow2_digits (m d s : Z) :
  2 ^ (d - 1) <= m < 2 ^ d -> 0 < d -> 0 <= s ->
  2 ^ (d + s - 1) <= m * 2 ^ s < 2 ^ (d + s).
Proof.
  intros [Hlo Hhi] Hd Hs. pose proof (pow2_pos s Hs) as P.
  replace (d + s - 1) with (d - 1 + s) by lia.
  rewrite !Z.pow_add_r by lia. nia.
Qed.

Lemma binary_normalize_pos (p : positive) :
  let d := Zpos (digits2_pos p) in
  exists m2 e2,
    2 ^ 52 <= m2 < 2 ^ 53
    /\ d - 53 <= e2 <= d - 52
    /\ (binary_normalize prec emax (Zpos p) 0 false = S754_infinity false
        \/ is_normal (binary_normalize prec emax (Zpos p) 0 false) m2 e2)
    /\ (d <= 53 ->
        is_normal (binary_normalize prec emax (Zpos p) 0 false) m2 e2
        /\ m2 = Zpos p * 2 ^ (53 - d) /\ e2 = d - 53).
Proof.
  intros d. cbn [binary_normalize]. unfold binary_round.
  pose proof (digits2_pos_bounds p) as Hb. fold d in Hb.
  assert (Hd : 0 < d) by (unfold d; lia).
  replace (Zpos (digits2_pos p) + 0) with d by (unfold d; lia).
  destruct (shl_align_spec p 0 (fexp prec emax d)) as [Hm He].
  destruct (shl_align p 0 (fexp prec emax d)) as [mz ez]. cbn [fst snd] in Hm, He.
  rewrite fexp_eq in Hm, He.
  set (s := Z.max (0 - Z.max (d - 53) (-1074)) 0) in *.
  assert (Hs : s = Z.max (53 - d) 0) by lia.
  assert (Hdz : Zdigits2 (Zpos mz) = d + s).
  { apply Zdigits2_unique; [| lia]. rewrite Hm. apply mul_pow2_digits; lia. }
  destruct (binary_round_aux_normal (Zpos mz) ez loc_Exact) as (m2 & e2 & Hrp & Hm2 & He2 & Hres);
    try lia.
  exists m2, e2. split; [exact Hm2 |]. split; [lia |]. split.
  - destruct Hres as [[Hi _] | Hn]; [now left | now right].
  - intros Hle.
    destruct (round_pair_normal (Zpos mz) ez loc_Exact) as (m2' & e2' & Hrp' & _ & _ & _ & Hex);
      try lia.
    rewrite Hrp in Hrp'. injection Hrp' as <- <-.
    destruct Hex as [E1 E2]; [lia | reflexivity |].
    assert (Em : m2 = Zpos p * 2 ^ (53 - d)).
    { rewrite E1, Hm. f_equal. f_equal. lia. }
    split; [| split; [exact Em | lia]].
    destruct Hres as [[_ Hbig] | Hn]; [lia | exact Hn].
Qed.

Lemma Zdigits2_normal m : 2 ^ 52 <= m < 2 ^ 53 -> Zdigits2 m = 53.
Proof.
  intros H. apply Zdigits2_unique; [| lia].
  replace (53 - 1) with 52 by lia. exact H.
Qed.

Lemma Zdigits2_range z a b : 0 <= a -> 2 ^ a <= z < 2 ^ b -> a < Zdigits2 z <= b.
Proof.
  intros Ha [Hlo Hhi].
  assert (Hz : 0 < z) by (pose proof (pow2_pos a Ha); lia).
  pose proof (Zdigits2_bounds z Hz) as [Dlo Dhi].
  pose proof (Zdigits2_pos z Hz) as Dp.
  split.
  - apply (Z.pow_lt_mono_r_iff 2); lia.
  - assert (Zdigits2 z - 1 < b); [| lia].
    destruct (Z.le_gt_cases 0 b) as [Hb | Hb].
    + apply (Z.pow_lt_mono_r_iff 2); lia.
    + rewrite Z.pow_neg_r in Hhi by lia. lia.
Qed.

Lemma new_location_exact n k : new_location n k <> loc_Exact -> k <> 0.
Proof.
  intros H ->. apply H.
  unfold new_location, new_location_even, new_location_odd.
  destruct (Z.even n); reflexivity.
Qed.

Lemma SFdiv_core_normal m1 e1 m2 e2 :
  2 ^ 52 <= m1 < 2 ^ 53 -> 2 ^ 52 <= m2 < 2 ^ 53 -> -1021 <= e1 - e2 ->
  SFdiv_core_binary prec emax m1 e1 m2 e2
  = (m1 * 2 ^ 53 / m2, e1 - e2 - 53, new_location m2 ((m1 * 2 ^ 53) mod m2)).
Proof.
  intros H1 H2 He. unfold SFdiv_core_binary. cbv zeta.
  rewrite !Zdigits2_normal by assumption. rewrite fexp_eq.
  replace (Z.min (Z.max (53 + e1 - (53 + e2) - 53) (-1074)) (e1 - e2)) with (e1 - e2 - 53) by lia.
  replace (e1 - e2 - (e1 - e2 - 53)) with 53 by lia.
  cbv iota. rewrite Z.shiftl_mul_pow2 by lia.
  unfold Z.div, Z.modulo.
  destruct (Z.div_eucl (m1 * 2 ^ 53) m2) as [q r]. reflexivity.
Qed.

(** A quotient of normal floats, the numerator not above the denominator,
    is a normal float of value at most one. *)
Lemma SFdiv_normal_le x y m1 e1 m2 e2 :
  is_normal x m1 e1 -> is_normal y m2 e2 ->
  e1 <= e2 -> -1021 <= e1 - e2 -> m1 <= m2 * 2 ^ (e2 - e1) ->
  exists mq eq,
    is_normal (SFdiv prec emax x y) mq eq
    /\ e1 - e2 - 53 <= eq <= 0 /\ mq <= 2 ^ (- eq).
Proof.
  intros (-> & Hm1 & He1) (-> & Hm2 & He2) Hle Hlo Hval.
  cbn [SFdiv xorb]. rewrite !Z2Pos.id by lia.
  rewrite (SFdiv_core_normal m1 e1 m2 e2 Hm1 Hm2 Hlo).
  set (q := m1 * 2 ^ 53 / m2). set (r := (m1 * 2 ^ 53) mod m2).
  assert (Hm2pos : 0 < m2) by lia.
  assert (Hqr : m1 * 2 ^ 53 = m2 * q + r /\ 0 <= r < m2).
  { unfold q, r. split; [apply Z.div_mod; lia | apply Z.mod_pos_bound; lia]. }
  assert (Hq : 2 ^ 52 <= q < 2 ^ 54).
  { unfold q. split.
    - apply Z.div_le_lower_bound; lia.
    - apply Z.div_lt_upper_bound; lia. }
  assert (Hdq : 52 < Zdigits2 q <= 54) by (apply Zdigits2_range; lia).
  assert (Hqpos : 0 < q) by lia.
  pose proof (pow2_pos (e2 - e1) ltac:(lia)) as Kpos.
  assert (Hup : m1 * 2 ^ 53 <= m2 * 2 ^ (53 + e2 - e1)).
  { replace (53 + e2 - e1) with (e2 - e1 + 53) by lia.
    rewrite Z.pow_add_r by lia. nia. }
  pose proof (pow2_pos (53 + e2 - e1) ltac:(lia)) as Bpos.
  destruct (round_pair_normal q (e1 - e2 - 53) (new_location m2 r))
    as (mq & eq & Hrp & Hmq & Heq & Hub & _); try lia.
  destruct (binary_round_aux_normal q (e1 - e2 - 53) (new_location m2 r))
    as (mq' & eq' & Hrp' & _ & _ & Hres); try lia.
  rewrite Hrp in Hrp'. injection Hrp' as <- <-.
  remember (Zdigits2 q) as dq eqn:Edq.
  set (E := dq + (e1 - e2 - 53) - 53) in *.
  specialize (Hub (2 ^ (- E))).
  assert (Hb : 2 ^ (- E) * 2 ^ (dq - 53) = 2 ^ (53 + e2 - e1)).
  { rewrite <- Z.pow_add_r by (unfold E; lia). f_equal. unfold E. lia. }
  rewrite Hb in Hub.
  assert (Hmain : mq * 2 ^ (eq - E) <= 2 ^ (- E)).
  { apply Hub.
    - destruct (Z.le_gt_cases q (2 ^ (53 + e2 - e1))) as [Hok | Hbad]; [exact Hok |].
      exfalso. nia.
    - intros Hloc. apply new_location_exact in Hloc.
      destruct (Z.lt_ge_cases q (2 ^ (53 + e2 - e1))) as [Hok | Hbad]; [exact Hok |].
      exfalso. nia. }
  assert (Heq0 : eq <= -52).
  { assert (Hpow : 2 ^ (52 + (eq - E)) <= 2 ^ (- E)).
    { rewrite Z.pow_add_r by (unfold E; lia).
      pose proof (pow2_pos (eq - E) ltac:(unfold E; lia)). nia. }
    apply Z.pow_le_mono_r_iff in Hpow; unfold E in *; lia. }
  exists mq, eq. split; [| split; [unfold E in *; lia |]].
  - destruct Hres as [[_ Hbig] | Hn]; [lia | exact Hn].
  - replace (- E) with (- eq + (eq - E)) in Hmain by lia.
    rewrite Z.pow_add_r in Hmain by (unfold E; lia).
    pose proof (pow2_pos (eq - E) ltac:(unfold E; lia)).
    pose proof (pow2_pos (- eq) ltac:(lia)). nia.
Qed.

(** A product of a normal float of value at most one with a normal float
    is a normal float not above the second factor. *)
Lemma SFmul_normal_le x y mq eq my ey :
  is_normal x mq eq -> is_normal y my ey ->
  eq <= 0 -> mq <= 2 ^ (- eq) -> -1126 <= eq + ey ->
  exists mr er,
    is_normal (SFmul prec emax x y) mr er
    /\ (er < ey \/ er = ey /\ mr <= my).
Proof.
  intros (-> & Hmq & Heq) (-> & Hmy & Hey) Heq0 Hval Hlo.
  cbn [SFmul xorb]. rewrite Pos2Z.inj_mul, !Z2Pos.id by lia.
  set (P := mq * my).
  assert (HP : 2 ^ 104 <= P < 2 ^ 106) by (unfold P; nia).
  pose proof (pow2_pos (- eq) ltac:(lia)) as Kpos.
  assert (HPup : P <= my * 2 ^ (- eq)) by (unfold P; nia).
  assert (HPlt : P < 2 ^ (53 - eq)).
  { replace (53 - eq) with (53 + - eq) by lia. rewrite Z.pow_add_r by lia. nia. }
  assert (Hd : 104 < Zdigits2 P <= 53 - eq).
  { split; [apply (Zdigits2_range P 104 106); lia |].
    apply (Zdigits2_range P 104 (53 - eq)); lia. }
  assert (Hd' : Zdigits2 P <= 106) by (apply (Zdigits2_range P 104 106); lia).
  destruct (round_pair_normal P (eq + ey) loc_Exact)
    as (mr & er & Hrp & Hmr & Her & Hub & _); try lia.
  destruct (binary_round_aux_normal P (eq + ey) loc_Exact)
    as (mr' & er' & Hrp' & _ & _ & Hres); try lia.
  rewrite Hrp in Hrp'. injection Hrp' as <- <-.
  remember (Zdigits2 P) as dP eqn:EdP.
  set (E := dP + (eq + ey) - 53) in *.
  specialize (Hub (my * 2 ^ (ey - E))).
  assert (Hb : my * 2 ^ (ey - E) * 2 ^ (dP - 53) = my * 2 ^ (- eq)).
  { rewrite <- Z.mul_assoc, <- Z.pow_add_r by (unfold E; lia).
    f_equal. f_equal. unfold E. lia. }
  rewrite Hb in Hub.
  assert (Hmain : mr * 2 ^ (er - E) <= my * 2 ^ (ey - E)).
  { apply Hub; [exact HPup | intros Hc; now elim Hc]. }
  assert (Hcmp : er < ey \/ er = ey /\ mr <= my).
  { destruct (Z.lt_trichotomy er ey) as [Hlt | [Heq' | Hgt]].
    - now left.
    - right. split; [exact Heq' |]. subst er.
      pose proof (pow2_pos (ey - E) ltac:(unfold E; lia)). nia.
    - exfalso.
      replace (er - E) with ((er - ey) + (ey - E)) in Hmain by lia.
      rewrite Z.pow_add_r in Hmain by (unfold E; lia).
      pose proof (pow2_pos (ey - E) ltac:(unfold E; lia)) as K1.
      assert (K2 : 2 <= 2 ^ (er - ey)).
      { change 2 with (2 ^ 1) at 1. apply Z.pow_le_mono_r; lia. }
      assert (K3 : my * 2 ^ (ey - E) < mr * (2 ^ (er - ey) * 2 ^ (ey - E))).
      { apply Z.lt_le_trans with (2 ^ 53 * 2 ^ (ey - E)).
        - apply Z.mul_lt_mono_pos_r; lia.
        - rewrite Z.mul_assoc. apply Z.mul_le_mono_nonneg_r; [lia |].
          apply Z.le_trans with (2 ^ 52 * 2); [lia |].
          apply Z.mul_le_mono_nonneg; lia. }
      lia. }
  exists mr, er. split; [| exact Hcmp].
  destruct Hres as [[_ Hbig] | Hn]; [lia | exact Hn].
Qed.

Lemma SFleb_normal x y mx ex my ey :
  is_normal x mx ex -> is_normal y my ey ->
  ex < ey \/ ex = ey /\ mx <= my ->
  SFleb x y = true.
Proof.
  intros (-> & Hmx & Hex) (-> & Hmy & Hey) Hc.
  unfold SFleb. cbn [SFcompare].
  destruct Hc as [Hlt | [-> Hle]].
  - apply Z.compare_lt_iff in Hlt. rewrite Hlt. reflexivity.
  - rewrite Z.compare_refl.
    change (Pos.compare_cont Eq (Z.to_pos mx) (Z.to_pos my))
      with (Pos.compare (Z.to_pos mx) (Z.to_pos my)).
    destruct (Pos.compare_spec (Z.to_pos mx) (Z.to_pos my)) as [_ | _ | Hgt];
      try reflexivity.
    assert (Hz : Zpos (Z.to_pos my) < Zpos (Z.to_pos mx)) by exact Hgt.
    rewrite !Z2Pos.id in Hz by lia. lia.
Qed.

Lemma SFleb_zero_normal y my ey : is_normal y my ey -> SFleb (S754_zero false) y = true.
Proof. intros (-> & _). reflexivity. Qed.

(** A normal float divided by itself is one. *)
Lemma SFdiv_normal_self x m e :
  is_normal x m e -> is_normal (SFdiv prec emax x x) (2 ^ 52) (-52).
Proof.
  intros (-> & Hm & He). cbn [SFdiv xorb]. rewrite !Z2Pos.id by lia.
  rewrite (SFdiv_core_normal m e m e Hm Hm ltac:(lia)).
  replace (m * 2 ^ 53 / m) with (2 ^ 53)
    by (symmetry; rewrite Z.mul_comm; apply Z.div_mul; lia).
  replace ((m * 2 ^ 53) mod m) with 0
    by (symmetry; rewrite Z.mul_comm; apply Z.mod_mul; lia).
  replace (e - e - 53) with (-53) by lia.
  replace (new_location m 0) with loc_Exact
    by (unfold new_location; destruct (Z.even m); reflexivity).
  split; [vm_compute; reflexivity | lia].
Qed.

(** One times a normal float is that float. *)
Lemma SFmul_one_normal x y my ey :
  is_normal x (2 ^ 52) (-52) -> is_normal y my ey ->
  is_normal (SFmul prec emax x y) my ey.
Proof.
  intros (-> & _ & _) (-> & Hmy & Hey).
  cbn [SFmul xorb]. rewrite Pos2Z.inj_mul, !Z2Pos.id by lia.
  set (P := 2 ^ 52 * my).
  assert (D : Zdigits2 P = 105).
  { apply Zdigits2_unique; [| lia]. replace (105 - 1) with 104 by lia. unfold P. lia. }
  destruct (round_pair_normal P (-52 + ey) loc_Exact)
    as (mr & er & Hrp & Hmr & Her & Hub & _); try lia.
  destruct (round_pair_normal_nearest P (-52 + ey))
    as (mr' & er' & Hrp' & Hlb & _); try lia.
  rewrite Hrp in Hrp'. injection Hrp' as <- <-.
  destruct (binary_round_aux_normal P (-52 + ey) loc_Exact)
    as (mr' & er' & Hrp' & _ & _ & Hres); try lia.
  rewrite Hrp in Hrp'. injection Hrp' as <- <-.
  rewrite D in *.
  replace (105 + (-52 + ey) - 53) with ey in * by lia.
  replace (105 - 53) with 52 in * by lia.
  specialize (Hub my ltac:(unfold P; lia) ltac:(intros Hc; now elim Hc)).
  specialize (Hlb my ltac:(unfold P; lia)).
  assert (Ee : er = ey).
  { destruct (Z.eq_dec er ey) as [E | NE]; [exact E |].
    exfalso. replace (er - ey) with 1 in * by lia. change (2 ^ 1) with 2 in *. lia. }
  subst er. replace (ey - ey) with 0 in * by lia. change (2 ^ 0) with 1 in *.
  assert (Em : mr = my) by lia. subst mr.
  destruct Hres as [[_ Hbig] | Hn]; [lia | exact Hn].
Qed.

(** A quotient of normal floats, the numerator below the denominator, is
    a normal float below one. *)
Lemma SFdiv_normal_lt x y m1 e1 m2 e2 :
  is_normal x m1 e1 -> is_normal y m2 e2 ->
  e1 <= e2 -> -1021 <= e1 - e2 ->
  m1 * 2 ^ 53 <= m2 * (2 ^ 53 - 1) * 2 ^ (e2 - e1) ->
  exists mq eq,
    is_normal (SFdiv prec emax x y) mq eq /\ e1 - e2 - 53 <= eq <= -53.
Proof.
  intros (-> & Hm1 & He1) (-> & Hm2 & He2) Hle Hlo Hval.
  cbn [SFdiv xorb]. rewrite !Z2Pos.id by lia.
  rewrite (SFdiv_core_normal m1 e1 m2 e2 Hm1 Hm2 Hlo).
  set (q := m1 * 2 ^ 53 / m2). set (r := (m1 * 2 ^ 53) mod m2).
  assert (Hm2pos : 0 < m2) by lia.
  assert (Hqr : m1 * 2 ^ 53 = m2 * q + r /\ 0 <= r < m2).
  { unfold q, r. split; [apply Z.div_mod; lia | apply Z.mod_pos_bound; lia]. }
  assert (Hq : 2 ^ 52 <= q < 2 ^ 54).
  { unfold q. split.
    - apply Z.div_le_lower_bound; lia.
    - apply Z.div_lt_upper_bound; lia. }
  pose proof (pow2_pos (e2 - e1) ltac:(lia)) as Kpos.
  set (K := 2 ^ (e2 - e1)) in *.
  assert (Hqle : q <= (2 ^ 53 - 1) * K).
  { destruct (Z.le_gt_cases q ((2 ^ 53 - 1) * K)) as [Hok | Hbad]; [exact Hok |].
    exfalso. nia. }
  assert (Hqlt : q < 2 ^ (53 + e2 - e1)).
  { replace (53 + e2 - e1) with (53 + (e2 - e1)) by lia.
    rewrite Z.pow_add_r by lia. fold K. lia. }
  assert (Hdq : 52 < Zdigits2 q <= 53 + e2 - e1).
  { apply Zdigits2_range; [lia |]. lia. }
  assert (Hqpos : 0 < q) by lia.
  destruct (round_pair_normal q (e1 - e2 - 53) (new_location m2 r))
    as (mq & eq & Hrp & Hmq & Heq & Hub & _); try lia.
  destruct (binary_round_aux_normal q (e1 - e2 - 53) (new_location m2 r))
    as (mq' & eq' & Hrp' & _ & _ & Hres); try lia.
  rewrite Hrp in Hrp'. injection Hrp' as <- <-.
  remember (Zdigits2 q) as dq eqn:Edq.
  set (E := dq + (e1 - e2 - 53) - 53) in *.
  specialize (Hub ((2 ^ 53 - 1) * 2 ^ (- 53 - E))).
  assert (Hb : (2 ^ 53 - 1) * 2 ^ (- 53 - E) * 2 ^ (dq - 53) = (2 ^ 53 - 1) * K).
  { rewrite <- Z.mul_assoc, <- Z.pow_add_r by (unfold E; lia).
    f_equal. unfold K. f_equal. unfold E. lia. }
  rewrite Hb in Hub.
  assert (Hmain : mq * 2 ^ (eq - E) <= (2 ^ 53 - 1) * 2 ^ (- 53 - E)).
  { apply Hub; [exact Hqle |].
    intros Hloc. apply new_location_exact in Hloc.
    destruct (Z.lt_ge_cases q ((2 ^ 53 - 1) * K)) as [Hok | Hbad]; [exact Hok |].
    exfalso. nia. }
  assert (Heq53 : eq <= -53).
  { destruct (Z.le_gt_cases eq (-53)) as [Hok | Hbad]; [exact Hok |].
    exfalso.
    pose proof (pow2_pos (- 53 - E) ltac:(unfold E; lia)) as P1.
    assert (P2 : 2 * 2 ^ (- 53 - E) <= 2 ^ (eq - E)).
    { replace (2 * 2 ^ (- 53 - E)) with (2 ^ (- 52 - E)).
      - apply Z.pow_le_mono_r; unfold E; lia.
      - replace (- 52 - E) with (Z.succ (- 53 - E)) by lia.
        apply Z.pow_succ_r. unfold E. lia. }
    nia. }
  exists mq, eq. split; [| unfold E in *; lia].
  destruct Hres as [[_ Hbig] | Hn]; [lia | exact Hn].
Qed.

(** A product of a normal float below one with a normal float that is not
    a power of two is below that float: the product rounds down. *)
Lemma SFmul_normal_lt x y mq eq my ey :
  is_normal x mq eq -> is_normal y my ey ->
  eq <= -53 -> 2 ^ 52 < my -> -1126 <= eq + ey ->
  exists mr er,
    is_normal (SFmul prec emax x y) mr er
    /\ (er < ey \/ er = ey /\ mr < my).
Proof.
  intros (-> & Hmq & Heq) (-> & Hmy & Hey) Heq53 Hbig Hlo.
  cbn [SFmul xorb]. rewrite Pos2Z.inj_mul, !Z2Pos.id by lia.
  set (P := mq * my).
  assert (HP : 2 ^ 104 <= P < 2 ^ 106) by (unfold P; nia).
  assert (HPup : P <= (2 ^ 53 - 1) * my) by (unfold P; nia).
  assert (Hd : 104 < Zdigits2 P <= 106) by (apply (Zdigits2_range P 104 106); lia).
  pose proof (Zdigits2_bounds P ltac:(lia)) as HdP.
  destruct (round_pair_normal P (eq + ey) loc_Exact)
    as (mr & er & Hrp & Hmr & Her & Hub & _); try lia.
  destruct (round_pair_normal_nearest P (eq + ey))
    as (mr' & er' & Hrp' & _ & Hnear); try lia.
  rewrite Hrp in Hrp'. injection Hrp' as <- <-.
  destruct (binary_round_aux_normal P (eq + ey) loc_Exact)
    as (mr' & er' & Hrp' & _ & _ & Hres); try lia.
  rewrite Hrp in Hrp'. injection Hrp' as <- <-.
  remember (Zdigits2 P) as dP eqn:EdP.
  set (E := dP + (eq + ey) - 53) in *.
  assert (HE : E <= ey) by (unfold E; lia).
  assert (Hcmp : er < ey \/ er = ey /\ mr < my).
  { destruct (Z.eq_dec E ey) as [EE | NE].
    - (* the product lies in the binade of [y] *)
      assert (EdP' : dP = 106) by (unfold E in EE; lia).
      specialize (Hnear (my - 1)).
      rewrite EdP' in Hnear. replace (106 - 53) with 53 in Hnear by lia.
      specialize (Hnear ltac:(lia)).
      destruct (Z.eq_dec er E) as [E0 | N0].
      + right. rewrite E0 in Hnear. replace (E - E) with 0 in Hnear by lia.
        change (2 ^ 0) with 1 in Hnear. lia.
      + exfalso. replace (er - E) with 1 in Hnear by lia.
        change (2 ^ 1) with 2 in Hnear. lia.
    - (* the product lies in a binade below *)
      destruct (Z.lt_ge_cases er ey) as [Hlt | Hge]; [now left |].
      right. split; [lia |].
      assert (Hp : P <= 2 ^ 53 * 2 ^ (dP - 53)).
      { rewrite <- Z.pow_add_r by lia. replace (53 + (dP - 53)) with dP by lia. lia. }
      specialize (Hub (2 ^ 53) Hp ltac:(intros Hc; now elim Hc)).
      replace (er - E) with 1 in Hub by lia. change (2 ^ 1) with 2 in Hub. lia. }
  exists mr, er. split; [| exact Hcmp].
  destruct Hres as [[_ Hbig'] | Hn]; [lia | exact Hn].
Qed.

Lemma Prim2SF_float_of_int (n : nat) :
  Prim2SF (float_of_int n) = binary_normalize prec emax (Z.of_nat n) 0 false.
Proof.
  unfold float_of_int. apply Prim2SF_SF2Prim.
  destruct n as [| n].
  - reflexivity.
  - rewrite Nat2Z.inj_succ, <- Z.add_1_r.
    destruct (Z.of_nat n + 1) as [| p | p] eqn:E; try lia.
    destruct (binary_normalize_pos p) as (m & e & _ & _ & [Hi | Hn] & _).
    + rewrite Hi. reflexivity.
    + exact (is_normal_valid _ _ _ Hn).
Qed.

Lemma float_of_int_shape (n : nat) :
  (0 < n)%nat ->
  Prim2SF (float_of_int n) = S754_infinity false
  \/ exists m e, Prim2SF (float_of_int n) = S754_finite false m e.
Proof.
  intros Hn. rewrite Prim2SF_float_of_int.
  destruct (Z.of_nat n) as [| p | p] eqn:E; try lia.
  destruct (binary_normalize_pos p) as (m & e & _ & _ & [Hi | (Hf & _)] & _).
  - now left.
  - right. eauto.
Qed.

(** Below [2 ^ 53] the conversion is exact. *)
Lemma float_of_int_small (n : nat) :
  (0 < n)%nat -> Z.of_nat n < 2 ^ 53 ->
  is_normal (Prim2SF (float_of_int n))
            (Z.of_nat n * 2 ^ (53 - Zdigits2 (Z.of_nat n)))
            (Zdigits2 (Z.of_nat n) - 53).
Proof.
  intros Hn Hlt. rewrite Prim2SF_float_of_int.
  destruct (Z.of_nat n) as [| p | p] eqn:E; try lia.
  destruct (binary_normalize_pos p) as (m & e & _ & _ & _ & Hex).
  assert (Hd : Zpos (digits2_pos p) <= 53).
  { change (Zpos (digits2_pos p)) with (Zdigits2 (Zpos p)).
    apply (Zdigits2_range (Zpos p) 0 53); [lia |]. change (2 ^ 0) with 1. lia. }
  destruct (Hex Hd) as (Hnorm & -> & ->). exact Hnorm.
Qed.

Lemma Prim2SF_100 : Prim2SF 100%float = S754_finite false 7036874417766400 (-46).
Proof. vm_compute. reflexivity. Qed.

Lemma Prim2SF_0 : Prim2SF 0%float = S754_zero false.
Proof. vm_compute. reflexivity. Qed.

Lemma normal_100 : is_normal (Prim2SF 100%float) 7036874417766400 (-46).
Proof.
  rewrite Prim2SF_100. split; [reflexivity |].
  split; [split; [apply Z.leb_le | apply Z.ltb_lt]; vm_compute; reflexivity | lia].
Qed.

(** ** The win rate *)

(** No winner among [t] trades: the rate is the float zero, whatever [t]. *)
Lemma rate_no_winner (t : nat) :
  (0 < t)%nat -> (float_of_int 0 / float_of_int t * 100 = 0)%float.
Proof.
  intros Ht. apply Prim2SF_inj.
  rewrite mul_spec, div_spec, Prim2SF_0, Prim2SF_100.
  rewrite (Prim2SF_float_of_int 0). cbn [Z.of_nat binary_normalize].
  destruct (float_of_int_shape t Ht) as [-> | (m & e & ->)]; reflexivity.
Qed.

(** The two counters as floats: mantissas and exponents in order. *)
Lemma float_of_int_order (w t : nat) :
  (0 < w)%nat -> (w <= t)%nat -> Z.of_nat t < 2 ^ 53 ->
  exists m1 e1 m2 e2,
    is_normal (Prim2SF (float_of_int w)) m1 e1
    /\ is_normal (Prim2SF (float_of_int t)) m2 e2
    /\ e1 <= e2 /\ -1021 <= e1 - e2
    /\ m1 <= m2 * 2 ^ (e2 - e1)
    /\ ((w < t)%nat -> m1 * 2 ^ 53 <= m2 * (2 ^ 53 - 1) * 2 ^ (e2 - e1)).
Proof.
  intros Hw Hwt Hlt.
  assert (Ht : (0 < t)%nat) by lia.
  pose proof (float_of_int_small w Hw ltac:(lia)) as Nw.
  pose proof (float_of_int_small t Ht Hlt) as Nt.
  set (zw := Z.of_nat w) in *. set (zt := Z.of_nat t) in *.
  assert (Hzw : 0 < zw <= zt) by (unfold zw, zt; lia).
  pose proof (Zdigits2_bounds zw ltac:(lia)) as Bw.
  pose proof (Zdigits2_bounds zt ltac:(lia)) as Bt.
  assert (Rw : 0 < Zdigits2 zw <= 53).
  { apply (Zdigits2_range zw 0 53); [lia |]. change (2 ^ 0) with 1. lia. }
  assert (Rt : 0 < Zdigits2 zt <= 53).
  { apply (Zdigits2_range zt 0 53); [lia |]. change (2 ^ 0) with 1. lia. }
  assert (Hdd : Zdigits2 zw <= Zdigits2 zt).
  { assert (Zdigits2 zw - 1 < Zdigits2 zt); [| lia].
    apply (Z.pow_lt_mono_r_iff 2); lia. }
  remember (Zdigits2 zw) as dw eqn:Edw. remember (Zdigits2 zt) as dt eqn:Edt.
  exists (zw * 2 ^ (53 - dw)), (dw - 53), (zt * 2 ^ (53 - dt)), (dt - 53).
  split; [exact Nw |]. split; [exact Nt |]. split; [lia |]. split; [lia |].
  pose proof (pow2_pos (53 - dw) ltac:(lia)) as Kpos.
  assert (Hk : 2 ^ (53 - dt) * 2 ^ (dt - 53 - (dw - 53)) = 2 ^ (53 - dw)).
  { rewrite <- Z.pow_add_r by lia. f_equal. lia. }
  split.
  - rewrite <- Z.mul_assoc, Hk. apply Z.mul_le_mono_nonneg_r; lia.
  - intros Hstrict.
    replace (zt * 2 ^ (53 - dt) * (2 ^ 53 - 1) * 2 ^ (dt - 53 - (dw - 53)))
      with (zt * (2 ^ 53 - 1) * (2 ^ (53 - dt) * 2 ^ (dt - 53 - (dw - 53)))) by ring.
    rewrite Hk.
    replace (zw * 2 ^ (53 - dw) * 2 ^ 53) with (zw * 2 ^ 53 * 2 ^ (53 - dw)) by ring.
    apply Z.mul_le_mono_nonneg_r; [lia |]. unfold zw, zt in *. lia.
Qed.

(** With a winner, the rate is a normal float not above 100. *)
Lemma rate_normal (w t : nat) :
  (0 < w)%nat -> (w <= t)%nat -> Z.of_nat t < 2 ^ 53 ->
  exists mr er,
    is_normal (Prim2SF (float_of_int w / float_of_int t * 100)%float) mr er
    /\ (er < -46 \/ er = -46 /\ mr <= 7036874417766400).
Proof.
  intros Hw Hwt Hlt.
  destruct (float_of_int_order w t Hw Hwt Hlt)
    as (m1 & e1 & m2 & e2 & Nw & Nt & He & Hlo & Hv & _).
  destruct (SFdiv_normal_le _ _ _ _ _ _ Nw Nt He Hlo Hv) as (mq & eq & Nq & Hq & Hv').
  destruct Nw as (_ & _ & He1). destruct Nt as (_ & _ & He2).
  destruct (SFmul_normal_le _ _ _ _ _ _ Nq normal_100) as (mr & er & Nr & Hc);
    [lia | exact Hv' | lia |].
  exists mr, er. rewrite mul_spec, div_spec. split; [exact Nr | exact Hc].
Qed.

Lemma rate_bounds (w t : nat) :
  (w <= t)%nat -> (0 < t)%nat -> Z.of_nat t < 2 ^ 53 ->
  (0 <=? float_of_int w / float_of_int t * 100)%float = true
  /\ (float_of_int w / float_of_int t * 100 <=? 100)%float = true.
Proof.
  intros Hwt Ht Hlt.
  destruct w as [| w'].
  - rewrite (rate_no_winner t Ht). split; vm_compute; reflexivity.
  - destruct (rate_normal (S w') t ltac:(lia) Hwt Hlt) as (mr & er & Nr & Hc).
    rewrite !leb_spec, Prim2SF_0. split.
    + exact (SFleb_zero_normal _ _ _ Nr).
    + exact (SFleb_normal _ _ _ _ _ _ Nr normal_100 Hc).
Qed.

(** With a winner the rate is not zero. *)
Lemma rate_not_zero (w t : nat) :
  (0 < w)%nat -> (w <= t)%nat -> Z.of_nat t < 2 ^ 53 ->
  (float_of_int w / float_of_int t * 100)%float <> 0%float.
Proof.
  intros Hw Hwt Hlt E.
  destruct (rate_normal w t Hw Hwt Hlt) as (mr & er & (Hf & _) & _).
  rewrite E, Prim2SF_0 in Hf. discriminate.
Qed.

(** Every trade a winner: the rate is the float 100. *)
Lemma rate_full (t : nat) :
  (0 < t)%nat -> Z.of_nat t < 2 ^ 53 ->
  (float_of_int t / float_of_int t * 100 = 100)%float.
Proof.
  intros Ht Hlt. apply Prim2SF_inj.
  pose proof (float_of_int_small t Ht Hlt) as Nt.
  pose proof (SFmul_one_normal _ _ _ _ (SFdiv_normal_self _ _ _ Nt) normal_100)
    as (Hf & _).
  rewrite mul_spec, div_spec. unfold SF64mul, SF64div. rewrite Hf, Prim2SF_100.
  reflexivity.
Qed.

(** A trade that is no winner: the rate is below the float 100. *)
Lemma rate_not_full (w t : nat) :
  (w < t)%nat -> Z.of_nat t < 2 ^ 53 ->
  (float_of_int w / float_of_int t * 100)%float <> 100%float.
Proof.
  intros Hwt Hlt E.
  destruct w as [| w'].
  - rewrite rate_no_winner in E by lia.
    apply (f_equal Prim2SF) in E. rewrite Prim2SF_0, Prim2SF_100 in E. discriminate.
  - destruct (float_of_int_order (S w') t ltac:(lia) ltac:(lia) Hlt)
      as (m1 & e1 & m2 & e2 & Nw & Nt & He & Hlo & _ & Hv).
    destruct (SFdiv_normal_lt _ _ _ _ _ _ Nw Nt He Hlo (Hv Hwt)) as (mq & eq & Nq & Hq).
    destruct Nw as (_ & _ & He1). destruct Nt as (_ & _ & He2).
    destruct (SFmul_normal_lt _ _ _ _ _ _ Nq normal_100) as (mr & er & (Hf & Hmr & _) & Hc);
      [lia | lia | lia |].
    apply (f_equal Prim2SF) in E.
    rewrite mul_spec, div_spec in E. unfold SF64mul, SF64div in E.
    rewrite Hf, Prim2SF_100 in E. injection E as Em Ee.
    assert (Hm : mr = 7036874417766400).
    { rewrite <- (Z2Pos.id mr) by lia. rewrite Em. reflexivity. }
    lia.
Qed.

End Rounding.

(** * The report *)

Lemma total_is_closed_trades l : length (filter is_sell l) = closed_trades l.
Proof.
  induction l as [| [p t | p t pnl bal] l IH]; simpl; [reflexivity | exact IH |].
  now rewrite IH.
Qed.

Lemma wins_are_profitable_trades l :
  length (filter (fun t => 0 <? get_pnl t) l) = profitable_trades l.
Proof.
  induction l as [| [p t | p t pnl bal] l IH]; simpl; [reflexivity | exact IH |].
  destruct (0 <? pnl); simpl; now rewrite IH.
Qed.

Lemma profitable_le_closed l : (profitable_trades l <= closed_trades l)%nat.
Proof.
  induction l as [| [p t | p t pnl bal] l IH]; simpl; [lia | exact IH |].
  destruct (0 <? pnl); lia.
Qed.

Lemma closed_trades_count l : closed_trades l = count_sells l.
Proof. symmetry. apply total_is_closed_trades. Qed.

(** C5.  Report figures: for every journal, [total_trades] is the number of
    Sell events; [win_rate] is 0 when there is none and otherwise the
    binary64 number Python computes from the number of Sell events with a
    positive pnl, divided by [total_trades], times 100; and [win_rate]
    lies between 0 and 100.  The journal has fewer than [2 ^ 53] Sell
    events, the range in which the two counters are floats themselves. *)
Theorem report_figures (self : BacktestEngine) :
  (Z.of_nat (closed_trades (trades self)) < 2 ^ 53)%Z ->
  returns (generate_report self) (fun rep _ =>
    total_trades rep = closed_trades (trades self)
    /\ (total_trades rep = 0%nat -> win_rate rep = 0)
    /\ ((0 < total_trades rep)%nat ->
        win_rate rep
        = float_of_int (profitable_trades (trades self))
          / float_of_int (total_trades rep) * 100)
    /\ (0 <=? win_rate rep) = true /\ (win_rate rep <=? 100) = true).
Proof.
  intros Hsmall. unfold generate_report, returns.
  eexists; eexists; split; [reflexivity |]. cbn [total_trades win_rate].
  rewrite wins_are_profitable_trades, total_is_closed_trades.
  pose proof (profitable_le_closed (trades self)) as Hle.
  destruct (closed_trades (trades self)) as [| n] eqn:En.
  - cbn [Nat.ltb Nat.leb]. repeat split; auto; lia.
  - change (0 <? S n)%nat with true. cbv iota.
    destruct (rate_bounds (profitable_trades (trades self)) (S n)) as [Hlo Hhi];
      [exact Hle | lia | exact Hsmall |].
    repeat split; auto. discriminate.
Qed.

(** * Load failure *)

(** C7, as the code has it.  Whenever reading or parsing the input fails,
    [load_data] leaves through [sys.exit(1)]: the script ends with
    [SystemExit] of status 1 in the state [load_data] left, so neither
    [add_indicators] nor [run_simulation] ran; the balance is the initial
    balance, the journal is empty and the frame has no indicator column. *)
Theorem load_failure_exits
    (pd_read_csv : string -> py_exception + list tick)
    (pd_to_datetime : list tick -> py_exception + list tick) (path : string) :
  load_fails pd_read_csv pd_to_datetime path = true ->
  exists self',
    load_data pd_read_csv pd_to_datetime (__init__ path) = Err (SystemExit 1) self'
    /\ script pd_read_csv pd_to_datetime path = Err (SystemExit 1) self'
    /\ balance self' = INITIAL_BALANCE
    /\ trades self' = []
    /\ (forall rows, df self' <> Indicators rows).
Proof.
  unfold load_fails, script, bind, load_data. simpl.
  destruct (pd_read_csv path) as [x | raw]; intros H.
  - eexists. repeat split. discriminate.
  - destruct (pd_to_datetime raw) as [x | parsed]; [| discriminate].
    eexists. repeat split. discriminate.
Qed.

Lemma script_loaded pd_read_csv pd_to_datetime path raw parsed :
  pd_read_csv path = inr raw -> pd_to_datetime raw = inr parsed ->
  script pd_read_csv pd_to_datetime path = replay path parsed.
Proof.
  intros H1 H2. unfold script, replay, bind, load_data. simpl.
  rewrite H1, H2. reflexivity.
Qed.

(** After a successful load the script is a replay of the loaded ticks,
    that is a back-test of the frame [add_indicators] builds from them. *)
Lemma script_backtest pd_read_csv pd_to_datetime path raw parsed :
  pd_read_csv path = inr raw -> pd_to_datetime raw = inr parsed ->
  script pd_read_csv pd_to_datetime path
  = backtest path (attach parsed (talib_SMA (map tick_price parsed) 14)
                                 (talib_RSI (map tick_price parsed) 14)).
Proof.
  intros H1 H2. now rewrite (script_loaded _ _ _ _ _ H1 H2).
Qed.

(** * Quiet frames *)

Lemma step_quiet st r : quiet (rsi_14 r) -> step st r = st.
Proof.
  intros [H1 H2]. destruct st as [loc self]. unfold step.
  now rewrite H1, H2, !andb_false_r.
Qed.

Lemma run_loop_quiet rows self :
  Forall (fun r => quiet (rsi_14 r)) rows -> run_loop rows self = (loop_start, self).
Proof.
  unfold run_loop. generalize (loop_start, self).
  induction rows as [| r rows IH]; intros st H; simpl.
  - reflexivity.
  - inversion H as [| r' rows' Hr Hrows]; subst.
    rewrite (step_quiet st r Hr). now apply IH.
Qed.

Lemma quiet_nan : quiet nan.
Proof. split; reflexivity. Qed.

Lemma quiet_50 : quiet 50.
Proof. split; reflexivity. Qed.

Lemma attach_rsi (P : float -> Prop) ts : forall sma rsi,
  Forall P rsi -> Forall (fun r => P (rsi_14 r)) (attach ts sma rsi).
Proof.
  induction ts as [| t ts IH]; intros sma rsi H; simpl.
  - constructor.
  - destruct sma as [| s sma]; [constructor |].
    destruct rsi as [| x rsi]; [constructor |].
    inversion H; subst. constructor; [assumption | now apply IH].
Qed.

Lemma attach_rsi_column ts : forall sma rsi,
  length sma = length ts -> length rsi = length ts ->
  map rsi_14 (attach ts sma rsi) = rsi.
Proof.
  induction ts as [| t ts IH]; intros sma rsi Hs Hr; simpl in *.
  - destruct rsi; [reflexivity | discriminate].
  - destruct sma as [| s sma]; [discriminate |].
    destruct rsi as [| x rsi]; [discriminate |].
    simpl. f_equal. apply IH; simpl in *; lia.
Qed.

Lemma talib_SMA_length prices n : length (talib_SMA prices n) = length prices.
Proof. unfold talib_SMA. now rewrite length_map, length_seq. Qed.

Lemma Forall_repeat {A : Type} (P : A -> Prop) (x : A) n : P x -> Forall P (repeat x n).
Proof. intros H. induction n; simpl; constructor; assumption. Qed.

Lemma replay_eq path ticks :
  replay path ticks
  = backtest path (attach ticks (talib_SMA (map tick_price ticks) 14)
                                (talib_RSI (map tick_price ticks) 14)).
Proof. reflexivity. Qed.

(** On a frame whose RSI column is quiet the script trades nothing. *)
Lemma replay_quiet path ticks :
  Forall quiet (talib_RSI (map tick_price ticks) 14) ->
  replay path ticks
  = Ok {| initial_balance := INITIAL_BALANCE;
          final_balance := INITIAL_BALANCE;
          total_trades := 0;
          win_rate := 0;
          report_trades := [] |}
       (loaded path (attach ticks (talib_SMA (map tick_price ticks) 14)
                                  (talib_RSI (map tick_price ticks) 14))).
Proof.
  intros H. rewrite replay_eq, backtest_eq.
  rewrite run_loop_quiet by now apply attach_rsi.
  reflexivity.
Qed.

(** * The RSI of short and of flat price series *)

Lemma deltas_length ps : forall p0, length (deltas p0 ps) = length ps.
Proof. induction ps as [| p ps IH]; intros p0; simpl; [reflexivity | now rewrite IH]. Qed.

Lemma talib_RSI_short prices :
  (length prices <= 14)%nat -> talib_RSI prices 14 = repeat nan (length prices).
Proof.
  intros H. destruct prices as [| p0 ps]; [reflexivity |].
  unfold talib_RSI. rewrite deltas_length.
  simpl in H. assert (Hlt : (length ps <? 14)%nat = true) by (apply Nat.ltb_lt; lia).
  now rewrite Hlt.
Qed.

Lemma deltas_flat p n : is_finite p = true -> deltas p (repeat p n) = repeat 0 n.
Proof.
  intros H. induction n as [| n IH]; simpl; [reflexivity |].
  now rewrite (sub_diag_finite p H), IH.
Qed.

Lemma wilder_cons n g l d ds :
  wilder n g l (d :: ds)
  = rsi_of ((g * (n - 1) + gain d) / n) ((l * (n - 1) + loss d) / n)
    :: wilder n ((g * (n - 1) + gain d) / n) ((l * (n - 1) + loss d) / n) ds.
Proof. reflexivity. Qed.

Lemma flat_gain_step : (0 * (float_of_nat 14 - 1) + gain 0) / float_of_nat 14 = 0.
Proof. reflexivity. Qed.

Lemma flat_loss_step : (0 * (float_of_nat 14 - 1) + loss 0) / float_of_nat 14 = 0.
Proof. reflexivity. Qed.

Lemma flat_gain_seed : fsum (map gain (repeat 0 14)) / float_of_nat 14 = 0.
Proof. reflexivity. Qed.

Lemma flat_loss_seed : fsum (map loss (repeat 0 14)) / float_of_nat 14 = 0.
Proof. reflexivity. Qed.

Lemma rsi_of_flat : rsi_of 0 0 = 50.
Proof. reflexivity. Qed.

Lemma wilder_flat k : wilder (float_of_nat 14) 0 0 (repeat 0 k) = repeat 50 k.
Proof.
  induction k as [| k IH]; [reflexivity |].
  change (repeat 0 (S k)) with (0 :: repeat 0 k).
  change (repeat 50 (S k)) with (50 :: repeat 50 k).
  now rewrite wilder_cons, flat_gain_step, flat_loss_step, rsi_of_flat, IH.
Qed.

Lemma firstn_repeat_add {A : Type} (x : A) n k : firstn n (repeat x (n + k)) = repeat x n.
Proof. induction n as [| n IH]; simpl; [reflexivity | now rewrite IH]. Qed.

Lemma skipn_repeat_add {A : Type} (x : A) n k : skipn n (repeat x (n + k)) = repeat x k.
Proof. induction n as [| n IH]; simpl; [reflexivity | exact IH]. Qed.

Lemma talib_RSI_cons p0 ps n :
  talib_RSI (p0 :: ps) n
  = if (length (deltas p0 ps) <? n)%nat then repeat nan (length (p0 :: ps))
    else repeat nan n
         ++ rsi_of (fsum (map gain (firstn n (deltas p0 ps))) / float_of_nat n)
                   (fsum (map loss (firstn n (deltas p0 ps))) / float_of_nat n)
         :: wilder (float_of_nat n)
                   (fsum (map gain (firstn n (deltas p0 ps))) / float_of_nat n)
                   (fsum (map loss (firstn n (deltas p0 ps))) / float_of_nat n)
                   (skipn n (deltas p0 ps)).
Proof. reflexivity. Qed.

Lemma talib_RSI_flat p k :
  is_finite p = true ->
  talib_RSI (repeat p (S (14 + k))) 14 = repeat nan 14 ++ repeat 50 (S k).
Proof.
  intros H.
  change (repeat p (S (14 + k))) with (p :: repeat p (14 + k)).
  rewrite talib_RSI_cons, (deltas_flat p (14 + k) H), repeat_length.
  assert (Hge : (14 + k <? 14)%nat = false) by (apply Nat.ltb_ge; lia).
  rewrite Hge, firstn_repeat_add, skipn_repeat_add.
  rewrite flat_gain_seed, flat_loss_seed, rsi_of_flat, wilder_flat.
  reflexivity.
Qed.

Lemma flat_prices ticks p :
  (forall t, In t ticks -> tick_price t = p) ->
  map tick_price ticks = repeat p (length ticks).
Proof.
  induction ticks as [| t ticks IH]; intros H; simpl; [reflexivity |].
  rewrite (H t) by now left. f_equal. apply IH. intros u Hu. apply H. now right.
Qed.

(** C2.  Flat prices: on a frame of more than 14 ticks that all carry the
    same finite price, the RSI column is NaN on the 14 warm-up rows and
    exactly 50 on every later row, and the script reports no trade and a
    final balance equal to the initial balance. *)
Theorem flat_price_scenario (path : string) (ticks : list tick) (p : float) :
  (14 < length ticks)%nat ->
  (forall t, In t ticks -> tick_price t = p) ->
  is_finite p = true ->
  talib_RSI (map tick_price ticks) 14
  = repeat nan 14 ++ repeat 50 (length ticks - 14)
  /\ returns (replay path ticks) (fun rep self' =>
       (exists rows, df self' = Indicators rows
                     /\ map rsi_14 rows = repeat nan 14 ++ repeat 50 (length ticks - 14))
       /\ report_trades rep = []
       /\ total_trades rep = 0%nat
       /\ final_balance rep = initial_balance rep).
Proof.
  intros Hlen Hflat Hfin.
  assert (Hrsi : talib_RSI (map tick_price ticks) 14
                 = repeat nan 14 ++ repeat 50 (length ticks - 14)).
  { rewrite (flat_prices ticks p Hflat).
    replace (length ticks) with (S (14 + (length ticks - 15))) at 1 by lia.
    rewrite (talib_RSI_flat p _ Hfin). do 2 f_equal. lia. }
  split; [exact Hrsi |].
  unfold returns. rewrite replay_quiet.
  - eexists; eexists; split; [reflexivity |]. simpl.
    split; [| auto].
    eexists; split; [reflexivity |].
    rewrite attach_rsi_column.
    + exact Hrsi.
    + now rewrite talib_SMA_length, length_map.
    + rewrite Hrsi, length_app, !repeat_length. lia.
  - rewrite Hrsi. apply Forall_app. split; apply Forall_repeat.
    + exact quiet_nan.
    + exact quiet_50.
Qed.

(** C10.  Short frames: on a frame of at most 14 ticks every RSI value is
    undefined (NaN), the journal is empty, [total_trades] and [win_rate]
    are 0 and the final balance is the initial balance. *)
Theorem short_frame_no_signal (path : string) (ticks : list tick) :
  (length ticks <= 14)%nat ->
  talib_RSI (map tick_price ticks) 14 = repeat nan (length ticks)
  /\ returns (replay path ticks) (fun rep _ =>
       report_trades rep = []
       /\ total_trades rep = 0%nat
       /\ win_rate rep = 0
       /\ final_balance rep = initial_balance rep
       /\ final_balance rep = INITIAL_BALANCE).
Proof.
  intros Hlen.
  assert (Hrsi : talib_RSI (map tick_price ticks) 14 = repeat nan (length ticks)).
  { rewrite talib_RSI_short; now rewrite length_map. }
  split; [exact Hrsi |].
  unfold returns. rewrite replay_quiet.
  - eexists; eexists; split; [reflexivity |]. simpl. auto.
  - rewrite Hrsi. apply Forall_repeat, quiet_nan.
Qed.

(** * Runs on the sample inputs *)

Lemma float_neq (a b : float) : (a =? b) = false -> is_nan a = false -> a <> b.
Proof.
  intros Hab Ha E. subst b. unfold is_nan in Ha.
  rewrite Hab in Ha. discriminate.
Qed.

(** Section 8.7 of the spec: one Buy, one Sell, one trade, and the gain of
    the round trip on the balance. *)
Example round_trip_report :
  returns (backtest "ticks.csv" round_trip_rows) (fun rep self' =>
    report_trades rep = [BUY 101 "09:01"; SELL 105.5 "09:03" 45 10045]
    /\ total_trades rep = 1%nat
    /\ win_rate rep = 100
    /\ initial_balance rep = 10000
    /\ final_balance rep = 10000 + (105.5 - 101) * STAKE_AMOUNT
    /\ balance self' = 10045).
Proof.
  unfold returns. eexists; eexists; split; [reflexivity |].
  repeat split.
Qed.

(** One trade closed with a profit, one with a loss and one at its entry
    price: the win rate is 1 / 3 * 100, which Python prints as
    33.33333333333333, one unit in the last place below 100 / 3. *)
Example three_trips_report :
  returns (backtest "ticks.csv" three_trip_rows) (fun rep _ =>
    report_trades rep
    = [ BUY 100 "09:00"; SELL 104.5 "09:01" 45 10045;
        BUY 104 "09:02"; SELL 103 "09:03" (-10) 10035;
        BUY 100 "09:04"; SELL 100 "09:05" 0 10035 ]
    /\ total_trades rep = 3%nat
    /\ win_rate rep = 0x1.0aaaaaaaaaaaap+5
    /\ win_rate rep <> 100 / 3
    /\ final_balance rep = 10035).
Proof.
  unfold returns. eexists; eexists; split; [reflexivity |].
  repeat split. apply float_neq; reflexivity.
Qed.

Example open_rows_report :
  returns (backtest "ticks.csv" open_rows) (fun rep _ =>
    report_trades rep
    = [BUY 101 "09:01"; SELL 105.5 "09:03" 45 10045; BUY 99 "09:05"]
    /\ total_trades rep = 1%nat
    /\ final_balance rep = 10045).
Proof.
  unfold returns. eexists; eexists; split; [reflexivity |].
  repeat split.
Qed.

(** The balance is the left-to-right sum; adding the pnls among themselves
    first and the initial balance last rounds differently. *)
Example small_gains_report :
  returns (backtest "ticks.csv" small_gain_rows) (fun rep _ =>
    total_trades rep = 2%nat
    /\ final_balance rep = add_all (initial_balance rep) (sell_pnls (report_trades rep))
    /\ final_balance rep = 10000
    /\ initial_balance rep + fsum (sell_pnls (report_trades rep)) <> final_balance rep).
Proof.
  unfold returns. eexists; eexists; split; [reflexivity |].
  repeat split. apply float_neq; reflexivity.
Qed.

(** Rising prices: no loss at all, the RSI is 100. *)
Example rising_prices_rsi :
  talib_RSI (map float_of_nat (seq 1 16)) 14 = repeat nan 14 ++ [100; 100].
Proof. reflexivity. Qed.

Example no_repeatb_open_rows :
  no_repeatb [BUY 101 "09:01"; SELL 105.5 "09:03" 45 10045; BUY 99 "09:05"] = true
  /\ no_repeatb [BUY 101 "09:01"; BUY 99 "09:05"] = false.
Proof. split; reflexivity. Qed.

(** The script on a readable file of three ticks. *)
Example script_short_file :
  returns (script short_file parsed "ticks.csv") (fun rep self' =>
    report_trades rep = [] /\ final_balance rep = 10000
    /\ df self' = Indicators [ mkRow "09:00" 100 nan nan;
                               mkRow "09:01" 90 nan nan;
                               mkRow "09:02" 80 nan nan ]).
Proof.
  unfold returns. eexists; eexists; split; [reflexivity |].
  repeat split.
Qed.

(** * Instances of the theorems *)

Lemma warmup_inert_witness :
  is_nan (rsi_14 (mkRow "09:00" 100 nan nan)) = true
  /\ step (mkLocals true 95 (Some "08:59"%string), loaded "ticks.csv" round_trip_rows)
          (mkRow "09:00" 100 nan nan)
     = (mkLocals true 95 (Some "08:59"%string), loaded "ticks.csv" round_trip_rows).
Proof.
  split; [reflexivity |].
  apply (proj1 (warmup_inert (mkLocals true 95 (Some "08:59"%string))
                  (loaded "ticks.csv" round_trip_rows)
                  (mkRow "09:00" 100 nan nan) eq_refl)).
Defined.

Lemma open_position_left_open_witness :
  in_position (fst (run_loop open_rows (loaded "ticks.csv" open_rows))) = true
  /\ exists rows1 r rows2,
       open_rows = rows1 ++ r :: rows2
       /\ in_position (fst (run_loop rows1 (loaded "ticks.csv" open_rows))) = false
       /\ returns (backtest "ticks.csv" open_rows) (fun rep _ =>
            report_trades rep
            = trades (snd (run_loop rows1 (loaded "ticks.csv" open_rows)))
              ++ [BUY (price r) (time r)]
            /\ total_trades rep
               = count_sells (trades (snd (run_loop rows1 (loaded "ticks.csv" open_rows))))
            /\ S (total_trades rep) = count_buys (report_trades rep)
            /\ final_balance rep
               = balance (snd (run_loop rows1 (loaded "ticks.csv" open_rows)))).
Proof.
  split; [reflexivity |].
  apply (open_position_left_open "ticks.csv" open_rows). reflexivity.
Defined.

Lemma load_failure_exits_witness :
  load_fails no_such_file parsed "missing.csv" = true
  /\ exists self',
       load_data no_such_file parsed (__init__ "missing.csv") = Err (SystemExit 1) self'
       /\ script no_such_file parsed "missing.csv" = Err (SystemExit 1) self'
       /\ balance self' = INITIAL_BALANCE
       /\ trades self' = []
       /\ (forall rows, df self' <> Indicators rows).
Proof.
  split; [reflexivity |].
  apply (load_failure_exits no_such_file parsed "missing.csv"). reflexivity.
Defined.

(** C7, as the spec words it, fails: on a missing file the script ends
    with [SystemExit], status 1, and not with a [DataSourceError]; the
    same holds when the [time] column does not parse. *)
Lemma load_failure_is_SystemExit :
  script no_such_file parsed "missing.csv" = Err (SystemExit 1) (__init__ "missing.csv")
  /\ script short_file bad_dates "ticks.csv"
     = Err (SystemExit 1) (set_df (__init__ "ticks.csv") (Ticks short_ticks))
  /\ ~ (exists self',
          script no_such_file parsed "missing.csv" = Err (PyError "DataSourceError") self').
Proof.
  split; [reflexivity |]. split; [reflexivity |].
  intros [self' H]. discriminate H.
Qed.

Lemma flat_ticks_flat : forall t, In t flat_ticks -> tick_price t = 100.
Proof.
  intros t Ht. unfold flat_ticks in Ht. apply in_map_iff in Ht.
  destruct Ht as (i & <- & _). reflexivity.
Defined.

Lemma flat_price_scenario_witness :
  ((14 < length flat_ticks)%nat
   /\ (forall t, In t flat_ticks -> tick_price t = 100)
   /\ is_finite 100 = true)
  /\ talib_RSI (map tick_price flat_ticks) 14
     = repeat nan 14 ++ repeat 50 (length flat_ticks - 14)
  /\ returns (replay "flat.csv" flat_ticks) (fun rep self' =>
       (exists rows, df self' = Indicators rows
                     /\ map rsi_14 rows = repeat nan 14 ++ repeat 50 (length flat_ticks - 14))
       /\ report_trades rep = []
       /\ total_trades rep = 0%nat
       /\ final_balance rep = initial_balance rep).
Proof.
  assert (Hlen : (14 < length flat_ticks)%nat) by (vm_compute; lia).
  split; [split; [exact Hlen | split; [exact flat_ticks_flat | reflexivity]] |].
  apply (flat_price_scenario "flat.csv" flat_ticks 100 Hlen flat_ticks_flat eq_refl).
Defined.

Lemma short_frame_no_signal_witness :
  (length short_ticks <= 14)%nat
  /\ talib_RSI (map tick_price short_ticks) 14 = repeat nan (length short_ticks)
  /\ returns (replay "ticks.csv" short_ticks) (fun rep _ =>
       report_trades rep = []
       /\ total_trades rep = 0%nat
       /\ win_rate rep = 0
       /\ final_balance rep = initial_balance rep
       /\ final_balance rep = INITIAL_BALANCE).
Proof.
  assert (Hlen : (length short_ticks <= 14)%nat) by (vm_compute; lia).
  split; [exact Hlen |].
  apply (short_frame_no_signal "ticks.csv" short_ticks Hlen).
Defined.

Lemma sell_balance_running_witness :
  returns (backtest "ticks.csv" open_rows) (fun rep _ =>
    report_trades rep
    = [BUY 101 "09:01"] ++ SELL 105.5 "09:03" 45 10045 :: [BUY 99 "09:05"]
    /\ 10045 = add_all (initial_balance rep)
                       (sell_pnls ([BUY 101 "09:01"] ++ [SELL 105.5 "09:03" 45 10045]))
    /\ 10045 = last_sell_balance (initial_balance rep) [BUY 101 "09:01"] + 45
    /\ 10045 = final_balance rep).
Proof.
  destruct (sell_balance_running "ticks.csv" open_rows) as (rep & self' & E & H).
  exists rep, self'. split; [exact E |].
  assert (Ht : report_trades rep
               = [BUY 101 "09:01"] ++ SELL 105.5 "09:03" 45 10045 :: [BUY 99 "09:05"]).
  { rewrite backtest_eq in E. injection E as <- _. reflexivity. }
  split; [exact Ht |].
  destruct (H _ _ _ _ _ _ Ht) as (H1 & H2 & H3).
  split; [exact H1 |]. split; [exact H2 |]. apply H3. reflexivity.
Defined.

Lemma report_figures_witness :
  let self := snd (run_loop three_trip_rows (loaded "ticks.csv" three_trip_rows)) in
  (Z.of_nat (closed_trades (trades self)) < 2 ^ 53)%Z
  /\ returns (generate_report self) (fun rep _ =>
       total_trades rep = 3%nat
       /\ win_rate rep = float_of_int 1 / float_of_int 3 * 100
       /\ (0 <=? win_rate rep) = true /\ (win_rate rep <=? 100) = true).
Proof.
  intros self.
  assert (Hsmall : (Z.of_nat (closed_trades (trades self)) < 2 ^ 53)%Z)
    by (vm_compute; reflexivity).
  split; [exact Hsmall |].
  destruct (report_figures self Hsmall) as (rep & self' & E & Ht & _ & Hw & Hlo & Hhi).
  exists rep, self'. split; [exact E |].
  assert (H1 : total_trades rep = 3%nat) by (rewrite Ht; reflexivity).
  split; [exact H1 |]. split; [| split; assumption].
  rewrite Hw by (rewrite H1; repeat constructor). now rewrite H1.
Defined.

(** * Further facts about binary64 *)

Lemma SFcompare_antisym (a b : spec_float) :
  SFcompare b a = option_map CompOpp (SFcompare a b).
Proof.
  destruct a as [sa | sa | | sa ma ea], b as [sb | sb | | sb mb eb]; simpl;
    try reflexivity; try (destruct sa; reflexivity); try (destruct sb; reflexivity);
    try (destruct sa, sb; reflexivity).
  rewrite (Z.compare_antisym ea eb).
  pose proof (Pos.compare_cont_antisym ma mb Eq) as Hm. simpl in Hm.
  destruct sa, sb; simpl; try reflexivity;
    destruct (ea ?= eb)%Z; simpl; try reflexivity;
    rewrite <- Hm; try rewrite CompOpp_involutive; reflexivity.
Qed.

(** [a <= b] excludes [b < a]. *)
Lemma leb_not_ltb (a b : float) : (a <=? b) = true -> (b <? a) = false.
Proof.
  rewrite leb_spec, ltb_spec. unfold SFleb, SFltb.
  rewrite (SFcompare_antisym (Prim2SF a) (Prim2SF b)).
  destruct (SFcompare (Prim2SF a) (Prim2SF b)) as [[| |] |]; simpl; congruence.
Qed.

Lemma Prim2SF_70 : Prim2SF 70 = S754_finite false 4925812092436480 (-46).
Proof. vm_compute. reflexivity. Qed.

Lemma Prim2SF_30 : Prim2SF 30 = S754_finite false 8444249301319680 (-48).
Proof. vm_compute. reflexivity. Qed.

(** Nothing is above 70 and below 30. *)
Lemma above_70_not_below_30 (x : float) : (70 <? x) = true -> (x <? 30) = false.
Proof.
  rewrite !ltb_spec, Prim2SF_70, Prim2SF_30.
  unfold SFltb. destruct (Prim2SF x) as [s | s | | s m e]; cbn [SFcompare].
  - discriminate.
  - destruct s; [discriminate | reflexivity].
  - discriminate.
  - destruct s; [discriminate |].
    destruct (Z.compare_spec (-46) e) as [<- | Hlt | Hgt].
    + reflexivity.
    + intros _. destruct (Z.compare_spec e (-48)) as [-> | H | H]; try lia; reflexivity.
    + discriminate.
Qed.

Lemma below_30_not_above_70 (x : float) : (x <? 30) = true -> (70 <? x) = false.
Proof.
  intros H. destruct (70 <? x) eqn:E; [| reflexivity].
  rewrite (above_70_not_below_30 x E) in H. discriminate.
Qed.

(** * Lists *)

Lemma subseq_snoc_skip {A : Type} (s l : list A) (x : A) :
  subseq s l -> subseq s (l ++ [x]).
Proof.
  induction 1 as [| y s l H IH | y s l H IH]; simpl.
  - apply subseq_skip, subseq_nil.
  - now apply subseq_skip.
  - now apply subseq_take.
Qed.

Lemma subseq_snoc_take {A : Type} (s l : list A) (x : A) :
  subseq s l -> subseq (s ++ [x]) (l ++ [x]).
Proof.
  induction 1 as [| y s l H IH | y s l H IH]; simpl.
  - apply subseq_take, subseq_nil.
  - now apply subseq_skip.
  - now apply subseq_take.
Qed.

Lemma subseq_length {A : Type} (s l : list A) : subseq s l -> (length s <= length l)%nat.
Proof. induction 1; simpl; lia. Qed.

Lemma subseq_filter_length {A : Type} (f : A -> bool) (s l : list A) :
  subseq s l -> (length (filter f s) <= length (filter f l))%nat.
Proof.
  induction 1 as [| y s l H IH | y s l H IH]; simpl.
  - lia.
  - destruct (f y); simpl; lia.
  - destruct (f y); simpl; lia.
Qed.

(** The two ways a list that ends with [x] splits around an element. *)
Lemma snoc_split {A : Type} (l : list A) (x : A) pre a post :
  l ++ [x] = pre ++ a :: post ->
  (post = [] /\ pre = l /\ a = x)
  \/ (exists post', post = post' ++ [x] /\ l = pre ++ a :: post').
Proof.
  destruct post as [| y post _] using rev_ind; intros E.
  - left. apply app_inj_tail in E. destruct E as [-> ->]. auto.
  - right. exists post.
    change (pre ++ a :: post ++ [y]) with (pre ++ (a :: post) ++ [y]) in E.
    rewrite app_assoc in E. apply app_inj_tail in E. destruct E as [-> ->]. auto.
Qed.

Lemma count_buys_sells l : (count_buys l + count_sells l)%nat = length l.
Proof.
  unfold count_buys, count_sells.
  induction l as [| t l IH]; simpl; [reflexivity |].
  destruct t; simpl; lia.
Qed.

(** * Where the journal events come from *)

Lemma taken_counts new picked :
  Forall2 taken_at new picked ->
  (count_buys new <= buy_signals picked)%nat
  /\ (count_sells new <= sell_signals picked)%nat.
Proof.
  unfold count_buys, count_sells, buy_signals, sell_signals.
  induction 1 as [| t r new picked Ht H IH]; simpl; [lia |].
  destruct IH as [IHb IHs].
  destruct t as [p tm | p tm pnl bal]; simpl in *.
  - destruct Ht as (_ & _ & ->). destruct (70 <? rsi_14 r); simpl; lia.
  - destruct Ht as (_ & _ & ->). destruct (rsi_14 r <? 30); simpl; lia.
Qed.

(** The loop keeps the journal it finds and appends to it events written
    at rows of the frame, in the order of the frame. *)
Lemma run_loop_trace self rows :
  exists picked new,
    subseq picked rows
    /\ trades (snd (run_loop rows self)) = trades self ++ new
    /\ Forall2 taken_at new picked.
Proof.
  induction rows as [| x rows IH] using rev_ind.
  - exists [], []. repeat split.
    + apply subseq_nil.
    + simpl. now rewrite app_nil_r.
    + constructor.
  - destruct IH as (picked & new & Hsub & Htr & Hall).
    rewrite run_loop_snoc.
    destruct (run_loop rows self) as [loc s]. simpl in Htr.
    destruct (step_spec loc s x) as [Hp Hr | Hp Hr |]; simpl.
    + exists (picked ++ [x]), (new ++ [BUY (price x) (time x)]). repeat split.
      * now apply subseq_snoc_take.
      * now rewrite Htr, app_assoc.
      * apply Forall2_app; [exact Hall |]. repeat constructor. exact Hr.
    + exists (picked ++ [x]),
        (new ++ [SELL (price x) (time x) ((price x - entry_price loc) * STAKE_AMOUNT)
                      (balance s + (price x - entry_price loc) * STAKE_AMOUNT)]).
      repeat split.
      * now apply subseq_snoc_take.
      * now rewrite Htr, app_assoc.
      * apply Forall2_app; [exact Hall |]. repeat constructor. exact Hr.
    + exists picked, new. repeat split.
      * now apply subseq_snoc_skip.
      * exact Htr.
      * exact Hall.
Qed.

(** X1.  Every event of the journal was written at a row of the frame and
    the events follow the order of the frame: the journal pairs off with a
    selection of rows, each Buy carrying the price and time of a row whose
    RSI is below 30 and each Sell those of a row whose RSI is above 70. *)
Theorem journal_follows_signals (path : string) (rows : list row) :
  returns (backtest path rows) (fun rep _ =>
    exists picked,
      subseq picked rows /\ Forall2 taken_at (report_trades rep) picked).
Proof.
  rewrite backtest_eq. unfold generate_report, returns.
  eexists; eexists; split; [reflexivity |]. simpl.
  destruct (run_loop_trace (loaded path rows) rows) as (picked & new & Hsub & Htr & Hall).
  exists picked. split; [exact Hsub |]. now rewrite Htr.
Qed.

(** X2.  No trade without a signal: the report counts no more trades than
    the frame has rows with an RSI above 70, the journal holds no more Buys
    than the frame has rows with an RSI below 30, and a trade takes two
    rows. *)
Theorem trades_bounded_by_signals (path : string) (rows : list row) :
  returns (backtest path rows) (fun rep _ =>
    (total_trades rep <= sell_signals rows)%nat
    /\ (count_buys (report_trades rep) <= buy_signals rows)%nat
    /\ (2 * total_trades rep <= length rows)%nat).
Proof.
  rewrite backtest_eq. unfold generate_report, returns.
  eexists; eexists; split; [reflexivity |]. simpl.
  destruct (run_loop_trace (loaded path rows) rows) as (picked & new & Hsub & Htr & Hall).
  destruct (run_loop_journal_ok path rows) as (_ & _ & _ & Hc).
  simpl in Htr. rewrite Htr in *.
  destruct (taken_counts new picked Hall) as [Hb Hs].
  pose proof (subseq_filter_length (fun r => rsi_14 r <? 30) _ _ Hsub) as Hfb.
  pose proof (subseq_filter_length (fun r => 70 <? rsi_14 r) _ _ Hsub) as Hfs.
  pose proof (subseq_length _ _ Hsub) as Hlen.
  pose proof (Forall2_length Hall) as Hl2.
  pose proof (count_buys_sells new) as Hsum.
  unfold buy_signals, sell_signals, count_sells in *.
  repeat split; lia.
Qed.

(** X3.  The journal is append-only: whatever the object holds when
    [run_simulation] is called, and whether the call returns or raises, the
    journal afterwards is the journal before followed by new events, at
    most one for each row of the frame. *)
Theorem journal_append_only (self : BacktestEngine) :
  exists new,
    trades (after (run_simulation self)) = trades self ++ new
    /\ (length new
        <= match df self with Indicators rows => length rows | _ => 0 end)%nat.
Proof.
  unfold run_simulation.
  destruct (df self) as [| [| t ts] | rows] eqn:E; simpl.
  - exists []. now rewrite app_nil_r.
  - exists []. now rewrite app_nil_r.
  - exists []. now rewrite app_nil_r.
  - destruct (run_loop_trace self rows) as (picked & new & Hsub & Htr & Hall).
    exists new. split; [exact Htr |].
    rewrite (Forall2_length Hall). now apply subseq_length.
Qed.

(** * The pnl of a trade *)

Lemma step_entry_ok loc self r :
  entry_ok (loc, self) -> entry_ok (step (loc, self) r).
Proof.
  unfold entry_ok. intros [Hs He].
  destruct (step_spec loc self r) as [Hp Hr | Hp Hr |]; simpl in *.
  - split.
    + intros pre p2 t2 pnl bal post E.
      apply snoc_split in E. destruct E as [(_ & _ & E) | (post' & -> & E)].
      * discriminate.
      * now apply (Hs _ _ _ _ _ _ E).
    + intros _. now exists (trades self), (time r).
  - split; [| discriminate].
    intros pre p2 t2 pnl bal post E.
    apply snoc_split in E. destruct E as [(_ & -> & E) | (post' & -> & E)].
    + injection E as -> -> -> ->.
      destruct (He Hp) as (pre' & t & ->). now exists pre', (entry_price loc), t.
    + now apply (Hs _ _ _ _ _ _ E).
  - tauto.
Qed.

Lemma run_loop_entry_ok path rows : entry_ok (run_loop rows (loaded path rows)).
Proof.
  unfold run_loop.
  apply (run_loop_invariant entry_ok).
  - intros loc self r. apply step_entry_ok.
  - split; [| discriminate].
    intros pre p2 t2 pnl bal post E. destruct pre; discriminate.
Qed.

(** X4.  The pnl of a trade: every Sell event of the journal comes right
    after a Buy event, and its pnl is its own price minus the price of that
    Buy, times [STAKE_AMOUNT]. *)
Theorem sell_pnl_is_price_move (path : string) (rows : list row) :
  returns (backtest path rows) (fun rep _ =>
    forall pre p2 t2 pnl bal post,
      report_trades rep = pre ++ SELL p2 t2 pnl bal :: post ->
      exists pre' p1 t1,
        pre = pre' ++ [BUY p1 t1] /\ pnl = (p2 - p1) * STAKE_AMOUNT).
Proof.
  rewrite backtest_eq. unfold generate_report, returns.
  eexists; eexists; split; [reflexivity |]. simpl.
  exact (proj1 (run_loop_entry_ok path rows)).
Qed.

(** * Signals that do nothing *)

(** X5.  Dead band: a row whose RSI lies between 30 and 70, both bounds
    included, leaves the loop state as it is whatever the position, and a
    run is not altered by such a row anywhere in the frame. *)
Theorem dead_band_inert (loc : locals) (self : BacktestEngine) (r : row) :
  (30 <=? rsi_14 r) = true ->
  (rsi_14 r <=? 70) = true ->
  step (loc, self) r = (loc, self)
  /\ forall rows1 rows2 self0,
       run_loop (rows1 ++ r :: rows2) self0 = run_loop (rows1 ++ rows2) self0.
Proof.
  intros Hlo Hhi.
  assert (Hq : quiet (rsi_14 r)).
  { split; now apply leb_not_ltb. }
  split; [now apply step_quiet |].
  intros rows1 rows2 self0. rewrite !run_loop_app. simpl.
  now rewrite (step_quiet _ r Hq).
Qed.

(** X6.  Signals in the wrong state are ignored: with no position open a
    row whose RSI is above 70 changes nothing (nothing is sold short), and
    with a position open a row whose RSI is below 30 changes nothing (the
    position is not added to). *)
Theorem signal_in_wrong_state (ep : float) (et : option string)
    (self : BacktestEngine) (r : row) :
  ((70 <? rsi_14 r) = true ->
   step (mkLocals false ep et, self) r = (mkLocals false ep et, self))
  /\ ((rsi_14 r <? 30) = true ->
      step (mkLocals true ep et, self) r = (mkLocals true ep et, self)).
Proof.
  split; intros H; unfold step; simpl.
  - now rewrite (above_70_not_below_30 _ H).
  - now rewrite (below_30_not_above_70 _ H).
Qed.

(** * Constant prices, any RSI *)

Lemma flat_pnl p : is_finite p = true -> (p - p) * STAKE_AMOUNT = 0.
Proof. intros H. now rewrite (sub_diag_finite p H). Qed.

Lemma step_flat_books p loc self r :
  is_finite p = true -> price r = p ->
  flat_books p (loc, self) -> flat_books p (step (loc, self) r).
Proof.
  unfold flat_books. intros Hfin Hr (Hb & He & Hj).
  destruct (step_spec loc self r) as [Hp Hs | Hp Hs |]; simpl in *.
  - repeat split; auto.
    apply Forall_app. split; [exact Hj |]. repeat constructor.
  - rewrite Hr, (He Hp), (flat_pnl p Hfin), Hb.
    repeat split; try discriminate.
    apply Forall_app. split; [exact Hj |]. repeat constructor.
  - auto.
Qed.

Lemma run_loop_flat_books p rows :
  is_finite p = true -> Forall (fun r => price r = p) rows ->
  forall st, flat_books p st -> flat_books p (fold_left step rows st).
Proof.
  intros Hfin. induction 1 as [| r rows Hr Hrows IH]; intros st Hst; simpl.
  - exact Hst.
  - apply IH. destruct st as [loc self]. now apply step_flat_books.
Qed.

Lemma no_winner l :
  Forall (fun t => get_pnl t = 0) l -> filter (fun t => 0 <? get_pnl t) l = [].
Proof.
  induction 1 as [| t l Ht H IH]; simpl; [reflexivity |].
  now rewrite Ht, IH.
Qed.

(** X7.  Constant prices: on a frame whose rows all carry the same finite
    price, whatever the RSI column holds, every trade closes with a pnl of
    zero, the final balance is the initial balance and the win rate is 0. *)
Theorem flat_prices_never_pay (path : string) (rows : list row) (p : float) :
  is_finite p = true ->
  Forall (fun r => price r = p) rows ->
  returns (backtest path rows) (fun rep _ =>
    Forall (fun t => get_pnl t = 0) (report_trades rep)
    /\ final_balance rep = initial_balance rep
    /\ win_rate rep = 0).
Proof.
  intros Hfin Hrows.
  rewrite backtest_eq. unfold generate_report, returns.
  eexists; eexists; split; [reflexivity |]. simpl.
  destruct (run_loop_flat_books p rows Hfin Hrows (loop_start, loaded path rows))
    as (Hb & _ & Hj).
  { repeat split. discriminate. constructor. }
  fold (run_loop rows (loaded path rows)) in Hb, Hj.
  split; [exact Hj |]. split; [exact Hb |].
  rewrite (no_winner _ Hj). cbn [length].
  destruct (Nat.ltb_spec 0
              (length (filter is_sell (trades (snd (run_loop rows (loaded path rows)))))))
    as [Hpos | _]; [exact (rate_no_winner _ Hpos) | reflexivity].
Qed.

(** * What the loop does not read *)

Lemma step_same_inputs st r1 r2 : same_inputs r1 r2 -> step st r1 = step st r2.
Proof.
  intros (Ht & Hp & Hr). destruct st as [loc self]. unfold step.
  now rewrite Ht, Hp, Hr.
Qed.

Lemma run_loop_same_inputs rows1 rows2 :
  Forall2 same_inputs rows1 rows2 ->
  forall st, fold_left step rows1 st = fold_left step rows2 st.
Proof.
  induction 1 as [| r1 r2 rows1 rows2 Hr H IH]; intros st; simpl.
  - reflexivity.
  - now rewrite (step_same_inputs st r1 r2 Hr), IH.
Qed.

(** The loop neither reads nor writes the frame held by the object. *)
Lemma step_set_df loc self f r :
  step (loc, set_df self f) r
  = (fst (step (loc, self) r), set_df (snd (step (loc, self) r)) f).
Proof.
  unfold step. simpl.
  destruct (negb (in_position loc) && (rsi_14 r <? 30)); [reflexivity |].
  destruct (in_position loc && (70 <? rsi_14 r)); reflexivity.
Qed.

Lemma fold_step_set_df f rows : forall loc self,
  fold_left step rows (loc, set_df self f)
  = (fst (fold_left step rows (loc, self)),
     set_df (snd (fold_left step rows (loc, self))) f).
Proof.
  induction rows as [| r rows IH]; intros loc self; cbn [fold_left].
  - reflexivity.
  - rewrite step_set_df. destruct (step (loc, self) r) as [loc' self'].
    cbn [fst snd]. apply IH.
Qed.

(** X8.  The SMA column is never read: two frames that agree row by row
    on time, price and RSI give the same report, the same balance and the
    same journal, whatever their [sma_14] columns hold. *)
Theorem sma_never_read (path : string) (rows1 rows2 : list row) :
  Forall2 same_inputs rows1 rows2 ->
  exists rep self1 self2,
    backtest path rows1 = Ok rep self1
    /\ backtest path rows2 = Ok rep self2
    /\ balance self1 = balance self2
    /\ trades self1 = trades self2.
Proof.
  intros H. rewrite !backtest_eq. unfold loaded, run_loop.
  rewrite !fold_step_set_df.
  rewrite (run_loop_same_inputs rows1 rows2 H).
  unfold generate_report. simpl.
  eexists; eexists; eexists. repeat split.
Qed.

(** * Replaying a frame in two calls *)

Lemma step_same_position st1 st2 r :
  same_position st1 st2 -> same_position (step st1 r) (step st2 r).
Proof.
  destruct st1 as [loc1 self1], st2 as [loc2 self2].
  unfold same_position. simpl. intros (<- & Hp & He).
  unfold step. rewrite <- Hp.
  destruct (in_position loc1) eqn:E1; simpl.
  - rewrite <- (He eq_refl). destruct (70 <? rsi_14 r); simpl.
    + repeat split; discriminate.
    + rewrite E1. repeat split; auto.
  - destruct (rsi_14 r <? 30); simpl.
    + repeat split.
    + rewrite E1. repeat split; auto; discriminate.
Qed.

Lemma fold_step_same_position rows : forall st1 st2,
  same_position st1 st2 ->
  same_position (fold_left step rows st1) (fold_left step rows st2).
Proof.
  induction rows as [| r rows IH]; intros st1 st2 H; simpl.
  - exact H.
  - apply IH. now apply step_same_position.
Qed.

(** X9.  Replay in two calls: when the loop over a first part of the frame
    ends with no position open, running the loop again over the rest, on
    the object the first run left, gives the same object (balance and
    journal included) as one run over the whole frame. *)
Theorem chunked_replay (self : BacktestEngine) (rows1 rows2 : list row) :
  in_position (fst (run_loop rows1 self)) = false ->
  snd (run_loop (rows1 ++ rows2) self)
  = snd (run_loop rows2 (snd (run_loop rows1 self))).
Proof.
  intros Hflat. rewrite run_loop_app. unfold run_loop at 3.
  apply (fold_step_same_position rows2).
  unfold same_position. simpl. rewrite Hflat. repeat split. discriminate.
Qed.

(** * The win rate at its bounds *)

(** X10.  The win rate at its bounds: on a journal of fewer than [2 ^ 53]
    Sell events, [win_rate] is the float 100 exactly when there is a Sell
    event and every Sell event has a positive pnl, and it is the float 0
    exactly when no Sell event has a positive pnl: the two roundings
    never carry a rate below 100 up to 100, nor a positive one down to
    0. *)
Theorem win_rate_extremes (self : BacktestEngine) :
  (Z.of_nat (closed_trades (trades self)) < 2 ^ 53)%Z ->
  returns (generate_report self) (fun rep _ =>
    (win_rate rep = 100
     <-> (0 < closed_trades (trades self))%nat
         /\ profitable_trades (trades self) = closed_trades (trades self))
    /\ (win_rate rep = 0 <-> profitable_trades (trades self) = 0%nat)).
Proof.
  intros Hsmall. unfold generate_report, returns.
  eexists; eexists; split; [reflexivity |]. cbn [win_rate].
  rewrite wins_are_profitable_trades, total_is_closed_trades.
  pose proof (profitable_le_closed (trades self)) as Hle.
  destruct (closed_trades (trades self)) as [| n] eqn:En.
  - cbn [Nat.ltb Nat.leb]. split; split.
    + intros E. apply (f_equal Prim2SF) in E.
      rewrite Prim2SF_0, Prim2SF_100 in E. discriminate.
    + intros [H _]. lia.
    + intros _. lia.
    + reflexivity.
  - change (0 <? S n)%nat with true. cbv iota. split; split.
    + intros E. split; [lia |].
      destruct (Nat.eq_dec (profitable_trades (trades self)) (S n)) as [Hw | Hw];
        [exact Hw |].
      exfalso. apply (rate_not_full (profitable_trades (trades self)) (S n));
        [lia | exact Hsmall | exact E].
    + intros [_ E]. rewrite E. apply rate_full; [lia | exact Hsmall].
    + intros E. destruct (profitable_trades (trades self)) as [| w] eqn:Ew;
        [reflexivity |].
      exfalso. apply (rate_not_zero (S w) (S n)); [lia | exact Hle | exact Hsmall | exact E].
    + intros ->. apply rate_no_winner. lia.
Qed.

(** * What each method leaves alone *)

Lemma step_keeps_frame loc self r :
  df (snd (step (loc, self) r)) = df self
  /\ data_path (snd (step (loc, self) r)) = data_path self
  /\ positions (snd (step (loc, self) r)) = positions self.
Proof.
  destruct (step_spec loc self r); simpl; auto.
Qed.

Lemma run_loop_keeps_frame rows self :
  df (snd (run_loop rows self)) = df self
  /\ data_path (snd (run_loop rows self)) = data_path self
  /\ positions (snd (run_loop rows self)) = positions self.
Proof.
  unfold run_loop.
  apply (run_loop_invariant (fun st =>
    df (snd st) = df self /\ data_path (snd st) = data_path self
    /\ positions (snd st) = positions self)).
  - intros loc s r (H1 & H2 & H3).
    destruct (step_keeps_frame loc s r) as (K1 & K2 & K3).
    rewrite K1, K2, K3. auto.
  - simpl. auto.
Qed.

(** X11.  Only [run_simulation] touches the account, and it touches
    nothing else: [load_data], [add_indicators] and [generate_report]
    leave the balance and the journal as they found them, whether they
    return or raise, while [run_simulation] leaves the frame and the data
    path as it found them; [self.positions] is never changed by any of the
    four. *)
Theorem account_and_frame_effects
    (pd_read_csv : string -> py_exception + list tick)
    (pd_to_datetime : list tick -> py_exception + list tick)
    (self : BacktestEngine) :
  (balance (after (load_data pd_read_csv pd_to_datetime self)) = balance self
   /\ trades (after (load_data pd_read_csv pd_to_datetime self)) = trades self
   /\ positions (after (load_data pd_read_csv pd_to_datetime self)) = positions self)
  /\ (balance (after (add_indicators self)) = balance self
      /\ trades (after (add_indicators self)) = trades self
      /\ positions (after (add_indicators self)) = positions self)
  /\ (balance (after (generate_report self)) = balance self
      /\ trades (after (generate_report self)) = trades self
      /\ positions (after (generate_report self)) = positions self
      /\ df (after (generate_report self)) = df self)
  /\ (df (after (run_simulation self)) = df self
      /\ data_path (after (run_simulation self)) = data_path self
      /\ positions (after (run_simulation self)) = positions self).
Proof.
  repeat split.
  - unfold load_data. destruct (pd_read_csv _); [reflexivity |].
    destruct (pd_to_datetime _); reflexivity.
  - unfold load_data. destruct (pd_read_csv _); [reflexivity |].
    destruct (pd_to_datetime _); reflexivity.
  - unfold load_data. destruct (pd_read_csv _); [reflexivity |].
    destruct (pd_to_datetime _); reflexivity.
  - unfold add_indicators. destruct (frame_ticks _); reflexivity.
  - unfold add_indicators. destruct (frame_ticks _); reflexivity.
  - unfold add_indicators. destruct (frame_ticks _); reflexivity.
  - unfold run_simulation. destruct (df self) as [| [| t ts] | rows] eqn:E; simpl;
      try exact E. rewrite <- E. apply run_loop_keeps_frame.
  - unfold run_simulation. destruct (df self) as [| [| t ts] | rows]; simpl;
      try reflexivity. apply run_loop_keeps_frame.
  - unfold run_simulation. destruct (df self) as [| [| t ts] | rows]; simpl;
      try reflexivity. apply run_loop_keeps_frame.
Qed.

(** * Missing prices *)

Lemma Prim2SF_is_nan (x : float) : Prim2SF x = S754_nan -> is_nan x = true.
Proof.
  intros H. unfold is_nan. now rewrite FloatAxioms.eqb_spec, H.
Qed.

Lemma add_nan_l (x y : float) : is_nan x = true -> is_nan (x + y) = true.
Proof.
  intros H. apply Prim2SF_is_nan. rewrite add_spec, (is_nan_Prim2SF x H). reflexivity.
Qed.

Lemma add_nan_r (x y : float) : is_nan y = true -> is_nan (x + y) = true.
Proof.
  intros H. apply Prim2SF_is_nan. rewrite add_spec, (is_nan_Prim2SF y H).
  destruct (Prim2SF x); reflexivity.
Qed.

Lemma sub_nan_l (x y : float) : is_nan x = true -> is_nan (x - y) = true.
Proof.
  intros H. apply Prim2SF_is_nan. rewrite sub_spec, (is_nan_Prim2SF x H). reflexivity.
Qed.

Lemma sub_nan_r (x y : float) : is_nan y = true -> is_nan (x - y) = true.
Proof.
  intros H. apply Prim2SF_is_nan. rewrite sub_spec, (is_nan_Prim2SF y H).
  destruct (Prim2SF x); reflexivity.
Qed.

Lemma mul_nan_l (x y : float) : is_nan x = true -> is_nan (x * y) = true.
Proof.
  intros H. apply Prim2SF_is_nan. rewrite mul_spec, (is_nan_Prim2SF x H). reflexivity.
Qed.

Lemma step_keeps_nan_balance loc self r :
  is_nan (balance self) = true -> is_nan (balance (snd (step (loc, self) r))) = true.
Proof.
  intros H. destruct (step_spec loc self r) as [Hp Hr | Hp Hr |]; simpl.
  - exact H.
  - now apply add_nan_l.
  - exact H.
Qed.

(** X13.  Missing prices poison the balance: closing a position whose
    entry price or exit price is NaN (an empty price cell), or closing one
    when the balance is already NaN, leaves a NaN balance; and once the
    balance is NaN it is NaN at the end of every run. *)
Theorem nan_poisons_balance :
  (forall ep et self r,
     (70 <? rsi_14 r) = true ->
     (is_nan (price r) || is_nan ep || is_nan (balance self)) = true ->
     is_nan (balance (snd (step (mkLocals true ep et, self) r))) = true)
  /\ (forall rows self,
        is_nan (balance self) = true ->
        is_nan (balance (snd (run_loop rows self))) = true).
Proof.
  split.
  - intros ep et self r Hr H. unfold step. simpl. rewrite Hr. simpl.
    apply orb_true_iff in H. destruct H as [H | H].
    + apply orb_true_iff in H. apply add_nan_r, mul_nan_l.
      destruct H as [H | H]; [now apply sub_nan_l | now apply sub_nan_r].
    + now apply add_nan_l.
  - intros rows self H. unfold run_loop.
    apply (run_loop_invariant (fun st => is_nan (balance (snd st)) = true)).
    + intros loc s r. apply step_keeps_nan_balance.
    + exact H.
Qed.

(** A trade closed on a row without a price. *)
Example missing_exit_price :
  returns (backtest "ticks.csv"
             [mkRow "09:00" 100 nan 20; mkRow "09:01" nan nan 80;
              mkRow "09:02" 100 nan 20; mkRow "09:03" 101 nan 80])
    (fun rep _ =>
       total_trades rep = 2%nat
       /\ is_nan (final_balance rep) = true
       /\ win_rate rep = 50).
Proof.
  unfold returns. eexists; eexists; split; [reflexivity |].
  repeat split.
Qed.

(** * Instances of the further properties *)

(** A first part that ends with a position open is not covered by the
    replay in two calls: the second call starts flat and buys again. *)
Example chunk_ending_long_reenters :
  trades (snd (run_loop [mkRow "09:01" 98 nan 10]
                 (snd (run_loop [mkRow "09:00" 100 nan 20] (loaded "ticks.csv" [])))))
  = [BUY 100 "09:00"; BUY 98 "09:01"]
  /\ trades (snd (run_loop [mkRow "09:00" 100 nan 20; mkRow "09:01" 98 nan 10]
                    (loaded "ticks.csv" [])))
     = [BUY 100 "09:00"].
Proof. split; reflexivity. Qed.

Example flat_price_rows_report :
  returns (backtest "ticks.csv" flat_price_rows) (fun rep _ =>
    report_trades rep
    = [BUY 100 "09:00"; SELL 100 "09:01" 0 10000; BUY 100 "09:02"; SELL 100 "09:03" 0 10000]
    /\ total_trades rep = 2%nat
    /\ win_rate rep = 0).
Proof.
  unfold returns. eexists; eexists; split; [reflexivity |].
  repeat split.
Qed.

Lemma dead_band_inert_witness :
  ((30 <=? rsi_14 (mkRow "09:00" 100 nan 70)) = true
   /\ (rsi_14 (mkRow "09:00" 100 nan 70) <=? 70) = true)
  /\ step (mkLocals true 95 (Some "08:59"%string), loaded "ticks.csv" round_trip_rows)
          (mkRow "09:00" 100 nan 70)
     = (mkLocals true 95 (Some "08:59"%string), loaded "ticks.csv" round_trip_rows).
Proof.
  split; [split; reflexivity |].
  apply (proj1 (dead_band_inert (mkLocals true 95 (Some "08:59"%string))
                  (loaded "ticks.csv" round_trip_rows)
                  (mkRow "09:00" 100 nan 70) eq_refl eq_refl)).
Defined.

Lemma signal_in_wrong_state_witness :
  (70 <? rsi_14 (mkRow "09:00" 100 nan 80)) = true
  /\ step (mkLocals false 0 None, loaded "ticks.csv" round_trip_rows)
          (mkRow "09:00" 100 nan 80)
     = (mkLocals false 0 None, loaded "ticks.csv" round_trip_rows).
Proof.
  split; [reflexivity |].
  apply (proj1 (signal_in_wrong_state 0 None (loaded "ticks.csv" round_trip_rows)
                  (mkRow "09:00" 100 nan 80))).
  reflexivity.
Defined.

Lemma win_rate_extremes_witness :
  let self := snd (run_loop round_trip_rows (loaded "ticks.csv" round_trip_rows)) in
  (Z.of_nat (closed_trades (trades self)) < 2 ^ 53)%Z
  /\ returns (generate_report self) (fun rep _ =>
       win_rate rep = 100 /\ win_rate rep <> 0).
Proof.
  intros self.
  assert (Hsmall : (Z.of_nat (closed_trades (trades self)) < 2 ^ 53)%Z)
    by (vm_compute; reflexivity).
  split; [exact Hsmall |].
  destruct (win_rate_extremes self Hsmall) as (rep & self' & E & H100 & H0).
  exists rep, self'. split; [exact E |]. split.
  - apply H100. split; [repeat constructor | reflexivity].
  - intros Hz. apply H0 in Hz. discriminate Hz.
Defined.

Lemma flat_price_rows_flat : Forall (fun r => price r = 100) flat_price_rows.
Proof. repeat constructor. Defined.

Lemma flat_prices_never_pay_witness :
  (is_finite 100 = true /\ Forall (fun r => price r = 100) flat_price_rows)
  /\ returns (backtest "ticks.csv" flat_price_rows) (fun rep _ =>
       Forall (fun t => get_pnl t = 0) (report_trades rep)
       /\ final_balance rep = initial_balance rep
       /\ win_rate rep = 0).
Proof.
  split; [split; [reflexivity | exact flat_price_rows_flat] |].
  apply (flat_prices_never_pay "ticks.csv" flat_price_rows 100 eq_refl flat_price_rows_flat).
Defined.

Lemma other_sma_same_inputs : Forall2 same_inputs round_trip_rows round_trip_rows_other_sma.
Proof. repeat constructor. Defined.

Lemma sma_never_read_witness :
  Forall2 same_inputs round_trip_rows round_trip_rows_other_sma
  /\ exists rep self1 self2,
       backtest "ticks.csv" round_trip_rows = Ok rep self1
       /\ backtest "ticks.csv" round_trip_rows_other_sma = Ok rep self2
       /\ balance self1 = balance self2
       /\ trades self1 = trades self2.
Proof.
  split; [exact other_sma_same_inputs |].
  apply (sma_never_read "ticks.csv" _ _ other_sma_same_inputs).
Defined.

Lemma chunked_replay_witness :
  in_position (fst (run_loop round_trip_rows (loaded "ticks.csv" open_rows))) = false
  /\ snd (run_loop (round_trip_rows ++ second_chunk) (loaded "ticks.csv" open_rows))
     = snd (run_loop second_chunk
              (snd (run_loop round_trip_rows (loaded "ticks.csv" open_rows)))).
Proof.
  split; [reflexivity |].
  apply (chunked_replay (loaded "ticks.csv" open_rows) round_trip_rows second_chunk).
  reflexivity.
Defined.

Lemma sell_pnl_is_price_move_witness :
  returns (backtest "ticks.csv" open_rows) (fun rep _ =>
    report_trades rep
    = [BUY 101 "09:01"] ++ SELL 105.5 "09:03" 45 10045 :: [BUY 99 "09:05"]
    /\ exists pre' p1 t1,
         [BUY 101 "09:01"] = pre' ++ [BUY p1 t1] /\ 45 = (105.5 - p1) * STAKE_AMOUNT).
Proof.
  destruct (sell_pnl_is_price_move "ticks.csv" open_rows) as (rep & self' & E & H).
  exists rep, self'. split; [exact E |].
  assert (Ht : report_trades rep
               = [BUY 101 "09:01"] ++ SELL 105.5 "09:03" 45 10045 :: [BUY 99 "09:05"]).
  { rewrite backtest_eq in E. injection E as <- _. reflexivity. }
  split; [exact Ht |]. exact (H _ _ _ _ _ _ Ht).
Defined.
